(** * Phase-diagram calculator: composition mesh and orchestration

    A shallow embedding of [phase_diagram_calculator.py].

    Mole fractions are exact rationals ([Qc]); Python's [float] arithmetic
    is read over exact arithmetic.  Code that can raise returns a
    [result]; the orchestrator, which prints, opens engine sessions and
    writes files, is a state-and-error computation over a [world]. *)

From Stdlib Require Import QArith Qcanon Qround Ascii Lqa.
From stdpp Require Import base numbers list strings pretty gmap.

Local Open Scope Qc_scope.

(** ** Exceptions and fallible computations *)

Inductive exception : Type :=
  | IndexError
  | ZeroDivisionError
  | OSError
  | UnpicklingError
  | UnrecoverableCalculationException
  | OtherException (name : string).

Global Instance exception_eq_dec : EqDecision exception.
Proof. solve_decision. Defined.

Inductive result (A : Type) : Type :=
  | Ok (a : A)
  | Raise (e : exception).
Arguments Ok {A} a.
Arguments Raise {A} e.

Global Instance result_ret : MRet result := λ A a, Ok a.
Global Instance result_bind : MBind result := λ A B f m,
  match m with
  | Ok a => f a
  | Raise e => Raise e
  end.

(** [for x in l: s = body(s, x)], stopping at the first exception. *)
Fixpoint for_each {A S : Type} (body : S → A → result S) (s : S) (l : list A)
    : result S :=
  match l with
  | [] => Ok s
  | x :: l => s' ← body s x; for_each body s' l
  end.

(** ** Numbers *)

Definition Qc_of_nat (n : nat) : Qc := Qc_of_Z (Z.of_nat n).
Arguments Qc_of_nat : simpl never.

(** The literal [3] of [3 * constant_concentration_of_other_elements]. *)
Definition three : Qc := Qc_of_Z 3.

Fixpoint sum_Qc (l : list Qc) : Qc :=
  match l with
  | [] => 0
  | x :: l => x + sum_Qc l
  end.

(** ** The numpy operations the generator uses *)

(** A two-dimensional array, stored as its list of rows: shape [(k, n)] is
    [k] rows of length [n]. *)
Abbreviation ndarray := (list (list Qc)).

Definition np_zeros (k n : nat) : ndarray := replicate k (replicate n 0).

Definition has_shape (a : ndarray) (k n : nat) : Prop :=
  length a = k ∧ Forall (λ row, length row = n) a.

(** [np.linspace(start, stop, num)] (endpoint included): the samples
    [start + i * step] with [step = (stop - start) / (num - 1)], the last
    one set to [stop]; with fewer than two samples there is no step and the
    only sample is [start]. *)
Definition np_linspace (start stop : Qc) (num : nat) : list Qc :=
  let div := (num - 1)%nat in
  let delta := stop - start in
  let y := Qc_of_nat <$> seq 0 num in
  let y :=
    if decide (0 < div)%nat
    then (let step := delta / Qc_of_nat div in (λ v, v * step) <$> y)
    else (λ v, v * delta) <$> y in
  let y := (λ v, v + start) <$> y in
  if decide (1 < num)%nat then <[(num - 1)%nat := stop]> y else y.

(** An integer index into an axis of length [len]: negative indices count
    from the end, anything outside [-len .. len-1] raises.  The index is
    one that fits numpy's index type, a signed 64-bit integer: a larger
    Python integer is refused with another exception before the bounds are
    looked at, and is outside this model. *)
Definition np_index (len : nat) (idx : Z) : result nat :=
  if decide (0 ≤ idx < Z.of_nat len)%Z then Ok (Z.to_nat idx)
  else if decide (- Z.of_nat len ≤ idx < 0)%Z
       then Ok (Z.to_nat (idx + Z.of_nat len))
       else Raise IndexError.

(** [a[idx, i]] *)
Definition np_getitem (a : ndarray) (idx : Z) (i : nat) : result Qc :=
  r ← np_index (length a) idx;
  match a !! r ≫= (.!! i) with
  | Some v => Ok v
  | None => Raise IndexError
  end.

(** [a[idx, i] = v] *)
Definition np_setitem (a : ndarray) (idx : Z) (i : nat) (v : Qc)
    : result ndarray :=
  r ← np_index (length a) idx;
  match a !! r with
  | Some row =>
      if decide (i < length row)%nat then Ok (<[r := <[i := v]> row]> a)
      else Raise IndexError
  | None => Raise IndexError
  end.

(** [l[i]] on a Python list, for a non-negative literal [i]. *)
Definition py_getitem {A : Type} (l : list A) (i : nat) : result A :=
  match l !! i with
  | Some x => Ok x
  | None => Raise IndexError
  end.

(** ** [mesh_concentrations] *)

Definition mesh_concentrations (element_list : list string) (n : nat)
    (indices_of_changing_elements indices_of_constant_elements : list Z)
    (constant_concentration_of_other_elements : Qc) : result ndarray :=
  let n_elements := length element_list in
  let input_concentrations := np_zeros n_elements n in
  let mole_fractions :=
    np_linspace 0 (1 - three * constant_concentration_of_other_elements) n in
  for_each (λ input_concentrations i,
      input_concentrations ←
        for_each (λ a idx,
            np_setitem a idx i constant_concentration_of_other_elements)
          input_concentrations indices_of_constant_elements;
      m ← py_getitem mole_fractions i;
      first ← py_getitem indices_of_changing_elements 0;
      input_concentrations ← np_setitem input_concentrations first i m;
      m ← py_getitem mole_fractions i;
      second ← py_getitem indices_of_changing_elements 1;
      np_setitem input_concentrations second i
        (1 - m - three * constant_concentration_of_other_elements))
    input_concentrations (seq 0 n).

(** Column [i] of an array, and its sum. *)
Definition column (a : ndarray) (i : nat) : list Qc :=
  (λ row, default 0 (row !! i)) <$> a.

Definition column_sum (a : ndarray) (i : nat) : Qc := sum_Qc (column a i).

Definition entry (a : ndarray) (r i : nat) : option Qc := a !! r ≫= (.!! i).

(** ** Vocabulary of the statements about the mesh *)

(** A non-negative index into an axis of length [k]. *)
Definition in_range (k : nat) (idx : Z) : Prop := (0 ≤ idx < Z.of_nat k)%Z.

Global Instance in_range_dec k idx : Decision (in_range k idx).
Proof. unfold in_range. apply _. Defined.

(** Sample [i] of the sweep of the first changing element. *)
Definition sweep (n : nat) (c : Qc) (i : nat) : Qc :=
  Qc_of_nat i * ((1 - three * c) / Qc_of_nat (n - 1)).

(** The value the loop body leaves in row [r], column [i]: the stores are
    made in the order constant elements, first changing element, second
    changing element, so a later store wins where indices coincide. *)
Definition expected (n : nat) (c : Qc) (first second : Z) (consts : list Z)
    (r i : nat) : Qc :=
  if decide (Z.of_nat r = second) then 1 - sweep n c i - three * c
  else if decide (Z.of_nat r = first) then sweep n c i
  else if decide (Z.of_nat r ∈ consts) then c
  else 0.

(** The element list of the example run. *)
Definition elements5 : list string := ["Al"; "Cr"; "Co"; "Fe"; "Ni"].

(** ** The world of the orchestrator *)

(** What a run leaves behind besides files: the lines it prints and the
    engine sessions it enters and leaves.  [Iteration c i] is bookkeeping,
    with no counterpart in the program's output: it marks the start of the
    loop body for column [i] of the mesh built for concentration [c]. *)
Inductive event : Type :=
  | Print (line : string)
  | Iteration (c : Qc) (i : nat)
  | SessionOpen
  | SessionClose.

Global Instance event_eq_dec : EqDecision event.
Proof. solve_decision. Defined.

Record world : Type := World {
  files : gmap string (list Byte.byte);
  dirs : gset string;
  trace : list event
}.

(** A computation that reads and changes the world and may raise; what it
    did before raising stays done. *)
Definition io (A : Type) : Type := world → world * result A.

Global Instance io_ret : MRet io := λ A a w, (w, Ok a).
Global Instance io_bind : MBind io := λ A B f m w,
  match m w with
  | (w', Ok a) => f a w'
  | (w', Raise e) => (w', Raise e)
  end.

Definition lift {A : Type} (r : result A) : io A := λ w, (w, r).

Definition emit (e : event) : io unit := λ w,
  (World (files w) (dirs w) (trace w ++ [e]), Ok tt).

Definition print (line : string) : io unit := emit (Print line).

(** [try: body / except caught: handler] *)
Definition try_except {A : Type} (body : io A) (caught : exception)
    (handler : io A) : io A := λ w,
  match body w with
  | (w', Raise e) => if decide (e = caught) then handler w' else (w', Raise e)
  | (w', Ok a) => (w', Ok a)
  end.

(** [with TCPython() as session: body]: the session is left on the way
    out, whether the body returns or raises, and the exception, if any,
    goes on. *)
Definition with_TCPython {A : Type} (body : io A) : io A := λ w,
  let '(w', r) := body (emit SessionOpen w).1 in
  ((emit SessionClose w').1, r).

(** A [for] loop that threads a local variable through its body. *)
Fixpoint for_each_io {A S : Type} (body : S → A → io S) (s : S) (l : list A)
    : io S :=
  match l with
  | [] => mret s
  | x :: l => s' ← body s x; for_each_io body s' l
  end.

(** ** Python and library functions used by the orchestrator *)

(** [pickle]: a serialiser for the values of type [V], with the guarantee
    the library documents, that loading what was dumped gives the value
    back. *)
Class Pickle (V : Type) : Type := {
  pickle_dumps : V → list Byte.byte;
  pickle_loads : list Byte.byte → result V;
  pickle_loads_dumps : ∀ v, pickle_loads (pickle_dumps v) = Ok v
}.

(** Nearest integer, ties to the even one. *)
Definition round_half_even (q : Q) : Z :=
  let f := Qfloor q in
  match (q - inject_Z f ?= 1 # 2)%Q with
  | Lt => f
  | Gt => (f + 1)%Z
  | Eq => if Z.even f then f else (f + 1)%Z
  end.

(** [round(x, ndigits)] *)
Definition py_round (x : Qc) (ndigits : nat) : Qc :=
  let scale := inject_Z (10 ^ Z.of_nat ndigits) in
  Q2Qc (inject_Z (round_half_even (x * scale)%Q) / scale)%Q.

(** [x / y] on floats *)
Definition py_div (x y : Qc) : result Qc :=
  if decide (y = 0) then Raise ZeroDivisionError else Ok (x / y).

Fixpoint ends_with_slash (s : string) : bool :=
  match s with
  | EmptyString => false
  | String c EmptyString => bool_decide (c = "/"%char)
  | String _ s => ends_with_slash s
  end.

(** [os.path.join(a, b)] (POSIX) *)
Definition os_path_join (a b : string) : string :=
  if String.prefix "/" b then b
  else if bool_decide (a = "") || ends_with_slash a then a +:+ b
  else a +:+ "/" +:+ b.

(** ** The engine's request *)

Inductive quantity : Type :=
  | temperature
  | mole_fraction_of_a_component (component : string).

Inductive axis_type : Type :=
  | max_step_size (step : Qc)
  | min_nr_of_steps (steps : Z).

Record CalculationAxis : Type := {
  axis_quantity : quantity;
  axis_min : Qc;
  axis_max : Qc;
  axis_kind : axis_type
}.

Record calculation : Type := {
  calc_database : string;
  calc_elements : list string;
  first_axis : CalculationAxis;
  second_axis : CalculationAxis;
  global_minimization : bool;
  conditions : list (quantity * Qc);
  timeout_in_minutes : Z;
  phase_label_coordinate : Qc * Qc;
  grouped_by : quantity * quantity
}.

(** What the program does not decide itself.  The engine is consulted
    once per grid point, identified by the running number of the system
    ([counter]): [select_database_and_elements] stands for the calls made
    before the step size is computed (database and element selection,
    [get_system], [with_phase_diagram_calculation]), [calculate] for the
    rest of the request, the calculation and the grouping of its values.
    [writable] tells whether a path can be created or opened for writing,
    and [float_str] is the text Python prints for a float. *)
Record environment (V : Type) : Type := {
  select_database_and_elements : nat → string → list string → result unit;
  calculate : nat → calculation → result V;
  writable : string → bool;
  float_str : Qc → string
}.
Arguments select_database_and_elements {V} _ _ _ _.
Arguments calculate {V} _ _ _.
Arguments writable {V} _ _.
Arguments float_str {V} _ _.

(** ** Files *)

(** The file system is a map from names to contents and a set of
    directory names.  Names are compared as texts (two spellings of one
    path are two names), of a directory created only the directory itself
    is recorded, not the parents made on the way, and a file that can be
    opened for writing is written in full: a write that fails half-way is
    not modelled. *)

Definition os_path_exists (path : string) : io bool := λ w,
  (w, Ok (bool_decide (path ∈ dirs w) || bool_decide (is_Some (files w !! path)))).

Definition os_makedirs {V} (env : environment V) (path : string) : io unit :=
  λ w,
  if writable env path
  then (World (files w) ({[path]} ∪ dirs w) (trace w), Ok tt)
  else (w, Raise OSError).

(** [save_groups]: open the file for writing and dump the groups in it. *)
Definition save_groups {V} `{Pickle V} (env : environment V) (groups : V)
    (filename : string) : io unit := λ w,
  if writable env filename
  then (World (<[filename := pickle_dumps groups]> (files w)) (dirs w)
          (trace w), Ok tt)
  else (w, Raise OSError).

(** [load_groups]: open the file for reading and load the groups. *)
Definition load_groups {V} `{Pickle V} (filename : string) : io V := λ w,
  match files w !! filename with
  | Some data => (w, pickle_loads data)
  | None => (w, Raise OSError)
  end.

(** ** [run_phase_diagram_calculations] *)

(** [f"Al{Al_x}-Cr{Cr_x}-Co{Co_x}-Fe{Fe_x}-Ni{Ni_x}.pkl"] *)
Definition output_filename {V} (env : environment V)
    (Al_x Cr_x Co_x Fe_x Ni_x : Qc) : string :=
  "Al" +:+ float_str env Al_x +:+ "-Cr" +:+ float_str env Cr_x +:+
  "-Co" +:+ float_str env Co_x +:+ "-Fe" +:+ float_str env Fe_x +:+
  "-Ni" +:+ float_str env Ni_x +:+ ".pkl".

(** The request built inside the session. *)
Definition phase_diagram_calculation (database : string)
    (element_list : list string) (temperature_range : Qc * Qc)
    (steps_in_temperature : Z) (max_concentration_on_x_axis step : Qc)
    (Cr_x Co_x Fe_x Ni_x : Qc) : calculation :=
  {| calc_database := database;
     calc_elements := element_list;
     first_axis :=
       {| axis_quantity := mole_fraction_of_a_component "Cr";
          axis_min := 0;
          axis_max := max_concentration_on_x_axis;
          axis_kind := max_step_size step |};
     second_axis :=
       {| axis_quantity := temperature;
          axis_min := temperature_range.1;
          axis_max := temperature_range.2;
          axis_kind := min_nr_of_steps steps_in_temperature |};
     global_minimization := true;
     conditions :=
       [(temperature, Qc_of_Z 1000);
        (mole_fraction_of_a_component "Cr", Cr_x);
        (mole_fraction_of_a_component "Co", Co_x);
        (mole_fraction_of_a_component "Fe", Fe_x);
        (mole_fraction_of_a_component "Ni", Ni_x)];
     timeout_in_minutes := 15;
     phase_label_coordinate := (Q2Qc 0.5, Qc_of_Z 2000);
     grouped_by := (mole_fraction_of_a_component "Al", temperature) |}.

Section orchestrator.
Context {V : Type} `{Pickle V} (env : environment V).
Context (element_list : list string) (database : string).
Context (temperature_range : Qc * Qc) (steps_in_temperature : Z).
Context (output_dir : string).

(** The body of the [try]: the session and what happens in it. *)
Definition calculate_and_save (counter : nat) (i : nat)
    (Al_x Cr_x Co_x Fe_x Ni_x max_concentration_on_x_axis : Qc) : io unit :=
  with_TCPython (
    lift (select_database_and_elements env counter database element_list);;
    step ← lift (py_div (Q2Qc 0.025) max_concentration_on_x_axis);
    phase_diagram ← lift (calculate env counter
      (phase_diagram_calculation database element_list temperature_range
         steps_in_temperature max_concentration_on_x_axis step
         Cr_x Co_x Fe_x Ni_x));
    let filename := output_filename env Al_x Cr_x Co_x Fe_x Ni_x in
    let filepath := os_path_join output_dir filename in
    save_groups env phase_diagram filepath;;
    print ("Saved: " +:+ filepath)).

(** The body of the loop over the grid points of one mesh; it returns the
    new value of [counter]. *)
Definition calculate_system (c : Qc) (input_concentrations : ndarray)
    (counter : nat) (i : nat) : io nat :=
  emit (Iteration c i);;
  let counter := S counter in
  print ("Calculating system #" +:+ pretty counter);;
  Al_x ← lift (np_getitem input_concentrations 0 i);
  Cr_x ← lift (np_getitem input_concentrations 1 i);
  Co_x ← lift (np_getitem input_concentrations 2 i);
  Fe_x ← lift (np_getitem input_concentrations 3 i);
  Ni_x ← lift (np_getitem input_concentrations 4 i);
  let max_concentration_on_x_axis := 1 - Cr_x - Co_x - Fe_x - Ni_x in
  let max_concentration_on_x_axis := py_round max_concentration_on_x_axis 3 in
  try_except
    (calculate_and_save counter i Al_x Cr_x Co_x Fe_x Ni_x
       max_concentration_on_x_axis)
    UnrecoverableCalculationException
    (print "Could not calculate. Continuing with next...");;
  mret counter.

(** The grid points visited for one mesh: [range(1, shape[1] - 1)], where
    [shape[1]] is the [n] the mesh was built with. *)
Definition interior (n : nat) : list nat := seq 1 (n - 2).

(** The body of the loop over the constant concentrations. *)
Definition calculate_mesh (n : nat)
    (indices_of_changing_elements indices_of_constant_elements : list Z)
    (counter : nat) (j : Qc) : io nat :=
  input_concentrations ← lift (mesh_concentrations element_list n
    indices_of_changing_elements indices_of_constant_elements j);
  for_each_io (calculate_system j input_concentrations) counter (interior n).

Definition run_phase_diagram_calculations (constant_C_of_others : list Qc)
    (n : nat)
    (indices_of_changing_elements indices_of_constant_elements : list Z)
    : io unit :=
  (os_path_exists output_dir ≫= λ present : bool,
     if present then mret tt else os_makedirs env output_dir);;
  for_each_io
    (calculate_mesh n indices_of_changing_elements
       indices_of_constant_elements)
    0%nat constant_C_of_others;;
  mret tt.

End orchestrator.

(** ** Vocabulary of the statements about the orchestrator *)

Section vocabulary.
Context {V : Type} `{Pickle V} (env : environment V).
Context (element_list : list string) (database : string).
Context (temperature_range : Qc * Qc) (steps_in_temperature : Z).
Context (output_dir : string).

(** The five mole fractions read at column [i]. *)
Definition read_composition (input_concentrations : ndarray) (i : nat)
    : result (Qc * Qc * Qc * Qc * Qc) :=
  Al_x ← np_getitem input_concentrations 0 i;
  Cr_x ← np_getitem input_concentrations 1 i;
  Co_x ← np_getitem input_concentrations 2 i;
  Fe_x ← np_getitem input_concentrations 3 i;
  Ni_x ← np_getitem input_concentrations 4 i;
  Ok (Al_x, Cr_x, Co_x, Fe_x, Ni_x).

(** What the engine answers for system number [counter], the computation
    of the step size included. *)
Definition engine_result (counter : nat)
    (max_concentration_on_x_axis Cr_x Co_x Fe_x Ni_x : Qc) : result V :=
  select_database_and_elements env counter database element_list;;
  step ← py_div (Q2Qc 0.025) max_concentration_on_x_axis;
  calculate env counter
    (phase_diagram_calculation database element_list temperature_range
       steps_in_temperature max_concentration_on_x_axis step
       Cr_x Co_x Fe_x Ni_x).

(** The path of the file saved for a composition. *)
Definition output_path (Al_x Cr_x Co_x Fe_x Ni_x : Qc) : string :=
  os_path_join output_dir (output_filename env Al_x Cr_x Co_x Fe_x Ni_x).

Definition add_events (w : world) (events : list event) : world :=
  World (files w) (dirs w) (trace w ++ events).

Definition add_file (w : world) (path : string) (data : list Byte.byte)
    : world :=
  World (<[path := data]> (files w)) (dirs w) (trace w).

(** One pass of the loop body, case by case. *)
Definition system_result (c : Qc) (input_concentrations : ndarray)
    (counter i : nat) (w : world) : world * result nat :=
  let started :=
    [Iteration c i; Print ("Calculating system #" +:+ pretty (S counter))] in
  match read_composition input_concentrations i with
  | Raise e => (add_events w started, Raise e)
  | Ok (Al_x, Cr_x, Co_x, Fe_x, Ni_x) =>
      let max_concentration_on_x_axis :=
        py_round (1 - Cr_x - Co_x - Fe_x - Ni_x) 3 in
      let filepath := output_path Al_x Cr_x Co_x Fe_x Ni_x in
      match engine_result (S counter) max_concentration_on_x_axis
              Cr_x Co_x Fe_x Ni_x with
      | Ok phase_diagram =>
          if writable env filepath
          then (add_events (add_file w filepath (pickle_dumps phase_diagram))
                  (started ++
                   [SessionOpen; Print ("Saved: " +:+ filepath); SessionClose]),
                Ok (S counter))
          else (add_events w (started ++ [SessionOpen; SessionClose]),
                Raise OSError)
      | Raise e =>
          if decide (e = UnrecoverableCalculationException)
          then (add_events w
                  (started ++
                   [SessionOpen; SessionClose;
                    Print "Could not calculate. Continuing with next..."]),
                Ok (S counter))
          else (add_events w (started ++ [SessionOpen; SessionClose]),
                Raise e)
      end
  end.

(** The first statements of the orchestrator: the output directory is
    created if it is absent. *)
Definition prepare_output_dir : io unit :=
  os_path_exists output_dir ≫= λ present : bool,
    if present then mret tt else os_makedirs env output_dir.

(** The rest of a run that stands in the mesh [a] of concentration [c]
    with the grid points [points] still to visit, and the concentrations
    [later] after them. *)
Definition resume (n : nat)
    (indices_of_changing_elements indices_of_constant_elements : list Z)
    (c : Qc) (a : ndarray) (counter : nat) (points : list nat)
    (later : list Qc) : io unit :=
  counter ←
    for_each_io
      (calculate_system env element_list database temperature_range
         steps_in_temperature output_dir c a)
      counter points;
  for_each_io
    (calculate_mesh env element_list database temperature_range
       steps_in_temperature output_dir n indices_of_changing_elements
       indices_of_constant_elements)
    counter later;;
  mret tt.

(** The run started in [w] with the concentrations [earlier ++ c :: _] has
    gone through [earlier] and through the grid points [before] of the mesh
    [a] of [c] without raising, and stands in [w'] with [counter] systems
    numbered. *)
Definition reaches (n : nat)
    (indices_of_changing_elements indices_of_constant_elements : list Z)
    (w : world) (earlier : list Qc) (c : Qc) (a : ndarray)
    (before : list nat) (counter : nat) (w' : world) : Prop :=
  ∃ w0 w1 counter1,
    prepare_output_dir w = (w0, Ok tt) ∧
    for_each_io
      (calculate_mesh env element_list database temperature_range
         steps_in_temperature output_dir n indices_of_changing_elements
         indices_of_constant_elements)
      0%nat earlier w0 = (w1, Ok counter1) ∧
    mesh_concentrations element_list n indices_of_changing_elements
      indices_of_constant_elements c = Ok a ∧
    for_each_io
      (calculate_system env element_list database temperature_range
         steps_in_temperature output_dir c a)
      counter1 before w1 = (w', Ok counter).

End vocabulary.

(** The grid points at which a loop body started, in order. *)
Definition visited (events : list event) : list (Qc * nat) :=
  omap (λ e, match e with Iteration c i => Some (c, i) | _ => None end) events.

(** Every interior grid point of every mesh, in the order of the loops. *)
Definition interior_points (constant_C_of_others : list Qc) (n : nat)
    : list (Qc * nat) :=
  c ← constant_C_of_others; (λ i, (c, i)) <$> interior n.

(** Where a run stands with respect to sessions: between grid points with
    none processed yet ([Idle]), in a loop body before its session
    ([Started]), inside the session ([InSession]), or after it
    ([Finished]). *)
Inductive phase : Type := Idle | Started | InSession | Finished.

Global Instance phase_eq_dec : EqDecision phase.
Proof. solve_decision. Defined.

(** Between two grid points. *)
Definition settled (p : phase) : Prop := p = Idle ∨ p = Finished.

(** One session per grid point: a loop body starts only when no session is
    open and the previous one, if any, is over; a session is entered only
    in a loop body that has had none; it is left only when open. *)
Definition session_step (p : phase) (e : event) : option phase :=
  match e, p with
  | Print _, _ => Some p
  | Iteration _ _, (Idle | Finished) => Some Started
  | SessionOpen, Started => Some InSession
  | SessionClose, InSession => Some Finished
  | _, _ => None
  end.

Fixpoint session_run (p : phase) (events : list event) : option phase :=
  match events with
  | [] => Some p
  | e :: events => p' ← session_step p e; session_run p' events
  end.

(** The sessions entered and the sessions left among the events. *)
Fixpoint sessions_entered (events : list event) : nat :=
  match events with
  | [] => 0
  | SessionOpen :: events => S (sessions_entered events)
  | _ :: events => sessions_entered events
  end.

Fixpoint sessions_left (events : list event) : nat :=
  match events with
  | [] => 0
  | SessionClose :: events => S (sessions_left events)
  | _ :: events => sessions_left events
  end.

(** What a run standing in phase [p] still owes to the last loop body that
    started: a session to enter, a session to leave. *)
Definition owed_entry (p : phase) : nat :=
  match p with Started => 1 | _ => 0 end.

Definition owed_exit (p : phase) : nat :=
  match p with Started | InSession => 1 | _ => 0 end.

(** The same environment with another engine behind [calculate]. *)
Definition with_calculate {V} (env : environment V)
    (calculate' : nat → calculation → result V) : environment V :=
  {| select_database_and_elements := select_database_and_elements env;
     calculate := calculate';
     writable := writable env;
     float_str := float_str env |}.

(** The requests of the interior grid points: [request] is the one built
    from column [i], with [1 ≤ i ≤ n - 2], of the mesh of one of the
    constant concentrations. *)
Definition interior_request (element_list : list string) (database : string)
    (temperature_range : Qc * Qc) (steps_in_temperature : Z) (n : nat)
    (indices_of_changing_elements indices_of_constant_elements : list Z)
    (constant_C_of_others : list Qc) (request : calculation) : Prop :=
  ∃ c a i Al_x Cr_x Co_x Fe_x Ni_x step,
    c ∈ constant_C_of_others ∧
    mesh_concentrations element_list n indices_of_changing_elements
      indices_of_constant_elements c = Ok a ∧
    (1 ≤ i ≤ n - 2)%nat ∧
    read_composition a i = Ok (Al_x, Cr_x, Co_x, Fe_x, Ni_x) ∧
    py_div (Q2Qc 0.025) (py_round (1 - Cr_x - Co_x - Fe_x - Ni_x) 3)
      = Ok step ∧
    request
    = phase_diagram_calculation database element_list temperature_range
        steps_in_temperature (py_round (1 - Cr_x - Co_x - Fe_x - Ni_x) 3)
        step Cr_x Co_x Fe_x Ni_x.

(** A text without any of the capital letters that follow a fraction in
    the file name. *)
Fixpoint occurs (c : ascii) (s : string) : bool :=
  match s with
  | EmptyString => false
  | String c' s => bool_decide (c = c') || occurs c s
  end.

Definition plain (s : string) : Prop :=
  occurs "C" s = false ∧ occurs "F" s = false ∧ occurs "N" s = false.

(** ** Concrete environments for the examples *)

Fixpoint zeros (k : nat) : string :=
  match k with
  | O => ""
  | S k => "0" +:+ zeros k
  end.

(** The fewest fractional digits, at least [d] and at most [d + fuel],
    with which [q] is written exactly. *)
Fixpoint fraction_digits (fuel d : nat) (q : Q) : nat :=
  match fuel with
  | O => d
  | S fuel =>
      let s := (q * inject_Z (10 ^ Z.of_nat d))%Q in
      if Qeq_bool (inject_Z (Qfloor s)) s then d
      else fraction_digits fuel (S d) q
  end.

(** A float printed in positional notation with the fewest fractional
    digits that give it exactly (at least one; at most 17, rounded there).
    For a value that binary floating point holds exactly and that has a
    short decimal expansion, such as 0.0625, this is the text Python
    prints. *)
Definition decimal_str (x : Qc) : string :=
  let d := fraction_digits 16 1 x in
  let scale := (10 ^ Z.of_nat d)%Z in
  let s := round_half_even (x * inject_Z scale)%Q in
  let m := Z.abs s in
  let frac := pretty (m `mod` scale)%Z in
  (if bool_decide (s < 0)%Z then "-" else "") +:+
  pretty (m `div` scale)%Z +:+ "." +:+
  zeros (d - String.length frac) +:+ frac.

(** A float printed as the fraction it is, numerator [/] denominator: a
    text from which the value can be read back, as from Python's. *)
Definition fraction_str (x : Qc) : string :=
  pretty (Qnum x) +:+ "/" +:+ pretty (Zpos (Qden x)).

(** A serialiser for results that are texts. *)
Global Program Instance pickle_string : Pickle string := {|
  pickle_dumps := String.list_byte_of_string;
  pickle_loads := λ data, Ok (String.string_of_list_byte data)
|}.
Next Obligation. intros v. simpl. by rewrite String.string_of_list_byte_of_string. Qed.

(** An engine that calculates every system but those whose number is in
    [unrecoverable], and a file system in which everything can be
    written. *)
Definition example_env (fmt : Qc → string) (unrecoverable : list nat)
    : environment string :=
  {| select_database_and_elements := λ _ _ _, Ok tt;
     calculate := λ counter _,
       if bool_decide (counter ∈ unrecoverable)
       then Raise UnrecoverableCalculationException
       else Ok ("groups of system " +:+ pretty counter);
     writable := λ _, true;
     float_str := fmt |}.

(** An engine that calculates every system but number [failing], where it
    raises an exception that is not an
    [UnrecoverableCalculationException]. *)
Definition example_env_failing (failing : nat) : environment string :=
  {| select_database_and_elements := λ _ _ _, Ok tt;
     calculate := λ counter _,
       if bool_decide (counter = failing)
       then Raise (OtherException "CalculationException")
       else Ok ("groups of system " +:+ pretty counter);
     writable := λ _, true;
     float_str := decimal_str |}.

Definition empty_world : world := World ∅ ∅ [].

(** The example run of the source, on a mesh of [n] columns for each of
    the [constant_C_of_others]. *)
Definition example_run (env : environment string)
    (constant_C_of_others : list Qc) (n : nat) : world * result unit :=
  run_phase_diagram_calculations env elements5 "TCHEA6"
    (Qc_of_Z 500, Qc_of_Z 1200) 60 "results"
    constant_C_of_others n [0; 1]%Z [2; 3; 4]%Z empty_world.

(** The mesh of the example run for [c = 0] on five columns. *)
Definition example_mesh : ndarray :=
  match mesh_concentrations elements5 5 [0; 1]%Z [2; 3; 4]%Z (Q2Qc 0) with
  | Ok a => a
  | Raise _ => []
  end.

(** ** Vocabulary of the further statements *)

(** An index numpy accepts on an axis of length [k]. *)
Definition valid_index (k : nat) (idx : Z) : Prop :=
  (- Z.of_nat k ≤ idx < Z.of_nat k)%Z.

Global Instance valid_index_dec k idx : Decision (valid_index k idx).
Proof. unfold valid_index. apply _. Defined.

(** An integer that fits numpy's index type, a signed 64-bit integer; the
    index errors of [np_index] are those of such indices. *)
Definition npy_intp (idx : Z) : Prop := (- 2 ^ 63 ≤ idx < 2 ^ 63)%Z.

Global Instance npy_intp_dec idx : Decision (npy_intp idx).
Proof. unfold npy_intp. apply _. Defined.

(** The non-negative index that denotes the same row. *)
Definition from_start (k : nat) (idx : Z) : Z :=
  if decide (idx < 0)%Z then (idx + Z.of_nat k)%Z else idx.

(** The indices with which the loop body of [mesh_concentrations] runs
    without raising: every constant index is valid, and there are two
    changing indices, both valid. *)
Definition usable (k : nat) (changing consts : list Z) : Prop :=
  Forall (valid_index k) consts ∧
  ∃ first second others,
    changing = first :: second :: others ∧
    valid_index k first ∧ valid_index k second.

(** The body of the loop of [mesh_concentrations]: the stores into column
    [i]. *)
Definition set_column (n : nat) (changing consts : list Z) (c : Qc)
    (input_concentrations : ndarray) (i : nat) : result ndarray :=
  input_concentrations ←
    for_each (λ a idx, np_setitem a idx i c) input_concentrations consts;
  m ← py_getitem (np_linspace 0 (1 - three * c) n) i;
  first ← py_getitem changing 0;
  input_concentrations ← np_setitem input_concentrations first i m;
  m ← py_getitem (np_linspace 0 (1 - three * c) n) i;
  second ← py_getitem changing 1;
  np_setitem input_concentrations second i (1 - m - three * c).

(** The line printed when the loop body starts for system number
    [counter]. *)
Definition progress_line (counter : nat) : string :=
  "Calculating system #" +:+ pretty counter.

(** The progress lines among the events, in order. *)
Definition progress_lines (events : list event) : list string :=
  omap (λ e,
      match e with
      | Print line =>
          if String.prefix "Calculating system #" line then Some line
          else None
      | _ => None
      end) events.

(** The lines that close a grid point, in order: [true] for a [Saved:]
    line, [false] for the line of a calculation that could not be done. *)
Definition outcome_lines (events : list event) : list bool :=
  omap (λ e,
      match e with
      | Print line =>
          if String.prefix "Saved: " line then Some true
          else if String.eqb line
                    "Could not calculate. Continuing with next..."
               then Some false
               else None
      | _ => None
      end) events.

(** What the events added by a loop or by a loop body say: the progress
    lines are numbered from [counter + 1] on, one per grid point visited;
    when it returns, the counter has advanced by the number of grid points
    visited and each has its closing line; when it raises, the last grid
    point has none. *)
Definition accounted (counter : nat) (w : world) (r : world * result nat)
    : Prop :=
  ∃ t,
    trace r.1 = trace w ++ t ∧
    progress_lines t
      = progress_line <$> seq (S counter) (length (visited t)) ∧
    match r.2 with
    | Ok counter' =>
        counter' = (counter + length (visited t))%nat ∧
        length (outcome_lines t) = length (visited t)
    | Raise _ =>
        (length (outcome_lines t) ≤ length (visited t))%nat
    end.

(** The file name of a composition. *)
Definition composition_filename {V} (env : environment V)
    (x : Qc * Qc * Qc * Qc * Qc) : string :=
  let '(Al_x, Cr_x, Co_x, Fe_x, Ni_x) := x in
  output_filename env Al_x Cr_x Co_x Fe_x Ni_x.
(** ** Facts about the array operations *)


Lemma np_index_in_range k idx :
  in_range k idx → np_index k idx = Ok (Z.to_nat idx).
Proof. intros H. unfold np_index. by rewrite decide_True. Qed.

Lemma np_index_lt k idx r : np_index k idx = Ok r → (r < k)%nat.
Proof.
  unfold np_index. repeat case_decide; intros [= <-]; lia.
Qed.

Lemma has_shape_zeros k n : has_shape (np_zeros k n) k n.
Proof.
  split; [apply length_replicate|].
  apply Forall_replicate, length_replicate.
Qed.

Lemma has_shape_lookup a k n r :
  has_shape a k n → (r < k)%nat → ∃ row, a !! r = Some row ∧ length row = n.
Proof.
  intros [Hk Hn] Hr. destruct (lookup_lt_is_Some_2 a r) as [row Hrow]; [lia|].
  exists row. split; [done|].
  by apply (Forall_lookup_1 (λ row, length row = n) a r row).
Qed.

Lemma entry_zeros k n r i :
  (r < k)%nat → (i < n)%nat → entry (np_zeros k n) r i = Some 0.
Proof.
  intros Hr Hi. unfold entry, np_zeros.
  rewrite (lookup_replicate_2 k _ r) by done. simpl.
  by apply lookup_replicate_2.
Qed.

(** A store into an array of shape [(k, n)] at a valid position succeeds,
    keeps the shape and changes that one cell. *)
Lemma np_setitem_spec a k n idx i v :
  has_shape a k n → in_range k idx → (i < n)%nat →
  ∃ a', np_setitem a idx i v = Ok a' ∧ has_shape a' k n ∧
    ∀ r' i', entry a' r' i' =
      if decide (r' = Z.to_nat idx ∧ i' = i) then Some v else entry a r' i'.
Proof.
  intros Ha Hidx Hi. pose proof Ha as [Hk Hn].
  assert (Z.to_nat idx < k)%nat as Hr by (unfold in_range in Hidx; lia).
  destruct (has_shape_lookup a k n _ Ha Hr) as (row & Hrow & Hlen).
  unfold np_setitem. rewrite Hk, (np_index_in_range k idx) by done. simpl.
  rewrite Hrow, decide_True by lia.
  eexists. split; [done|]. split.
  - split; [by rewrite length_insert|].
    apply Forall_insert; [done|]. by rewrite length_insert.
  - intros r' i'. unfold entry. case_decide as Hd.
    + destruct Hd as [-> ->].
      rewrite list_lookup_insert_eq by lia. simpl.
      apply list_lookup_insert_eq. lia.
    + destruct (decide (r' = Z.to_nat idx)) as [->|Hne].
      * rewrite list_lookup_insert_eq by lia. rewrite Hrow. simpl.
        apply list_lookup_insert_ne. naive_solver.
      * by rewrite list_lookup_insert_ne.
Qed.

Lemma for_each_app {A S} (body : S → A → result S) s l1 l2 :
  for_each body s (l1 ++ l2) = s' ← for_each body s l1; for_each body s' l2.
Proof.
  revert s. induction l1 as [|x l1 IH]; intros s; simpl; [done|].
  destruct (body s x); simpl; [apply IH|done].
Qed.

(** The loop over the constant elements, at column [i]. *)
Lemma set_constant_elements_spec consts : ∀ a k n i c,
  has_shape a k n → Forall (in_range k) consts → (i < n)%nat →
  ∃ a', for_each (λ a idx, np_setitem a idx i c) a consts = Ok a' ∧
    has_shape a' k n ∧
    ∀ r' i', (r' < k)%nat → entry a' r' i' =
      if decide (i' = i ∧ Z.of_nat r' ∈ consts) then Some c else entry a r' i'.
Proof.
  induction consts as [|idx consts IH]; intros a k n i c Ha Hin Hi; simpl.
  - exists a. repeat split; try apply Ha. intros r' i' _.
    rewrite decide_False; [done|]. intros [_ H]. by apply elem_of_nil in H.
  - apply Forall_cons in Hin as [Hidx Hin].
    destruct (np_setitem_spec a k n idx i c Ha Hidx Hi) as (a1 & -> & Ha1 & E1).
    simpl. destruct (IH a1 k n i c Ha1 Hin Hi) as (a2 & -> & Ha2 & E2).
    exists a2. repeat split; try apply Ha2. intros r' i' Hr'.
    rewrite E2, E1 by done. unfold in_range in Hidx.
    assert (r' = Z.to_nat idx ↔ Z.of_nat r' = idx) as Hiff by lia.
    pose proof (elem_of_cons consts (Z.of_nat r') idx) as Hcons.
    repeat case_decide; try done; exfalso; tauto.
Qed.

Lemma py_getitem_Some {A} (l : list A) i x :
  l !! i = Some x → py_getitem l i = Ok x.
Proof. intros H. unfold py_getitem. by rewrite H. Qed.

(** ** The sweep *)


Lemma Qc_of_nat_0 : Qc_of_nat 0 = 0.
Proof. apply Z2Qc_inj_0. Qed.

Lemma Qc_of_nat_ne_0 n : (0 < n)%nat → Qc_of_nat n ≠ 0.
Proof.
  intros Hn. unfold Qc_of_nat. rewrite <-Z2Qc_inj_0.
  intros H%Z2Qc_inj. lia.
Qed.

Lemma np_linspace_length start stop n : length (np_linspace start stop n) = n.
Proof.
  unfold np_linspace.
  repeat case_decide; rewrite ?length_insert, !length_fmap; apply length_seq.
Qed.

Lemma sweep_lookup n c i :
  (i < n)%nat →
  np_linspace 0 (1 - three * c) n !! i = Some (sweep n c i).
Proof.
  intros Hi. unfold np_linspace, sweep.
  destruct (decide (0 < n - 1)%nat) as [Hdiv|Hdiv].
  - rewrite decide_True by lia.
    destruct (decide (i = (n - 1)%nat)) as [->|Hne].
    + rewrite list_lookup_insert_eq
        by (rewrite !length_fmap, length_seq; lia).
      f_equal. pose proof (Qc_of_nat_ne_0 (n - 1) Hdiv). by field.
    + rewrite list_lookup_insert_ne by done.
      rewrite !list_lookup_fmap, lookup_seq_lt by done. simpl.
      f_equal. unfold Qcdiv. ring.
  - rewrite decide_False by lia.
    rewrite !list_lookup_fmap, lookup_seq_lt by done. simpl.
    assert (i = 0%nat) as -> by lia. f_equal.
    rewrite Qc_of_nat_0. ring.
Qed.

(** ** What [mesh_concentrations] returns *)


Section mesh.
Context (element_list : list string) (n : nat) (c : Qc).
Context (first second : Z) (others consts : list Z).

Let k := length element_list.
Let changing := first :: second :: others.

Hypothesis first_in_range : in_range k first.
Hypothesis second_in_range : in_range k second.
Hypothesis consts_in_range : Forall (in_range k) consts.

(** The state of the array after the first [j] iterations of the loop. *)
Lemma mesh_loop_prefix j :
  (j ≤ n)%nat →
  ∃ a,
    for_each (λ input_concentrations i,
        input_concentrations ←
          for_each (λ a idx, np_setitem a idx i c)
            input_concentrations consts;
        m ← py_getitem (np_linspace 0 (1 - three * c) n) i;
        first ← py_getitem changing 0;
        input_concentrations ← np_setitem input_concentrations first i m;
        m ← py_getitem (np_linspace 0 (1 - three * c) n) i;
        second ← py_getitem changing 1;
        np_setitem input_concentrations second i (1 - m - three * c))
      (np_zeros k n) (seq 0 j) = Ok a ∧
    has_shape a k n ∧
    ∀ r i, (r < k)%nat → (i < n)%nat →
      entry a r i =
        Some (if decide (i < j)%nat
              then expected n c first second consts r i else 0).
Proof.
  induction j as [|j IH]; intros Hj.
  - exists (np_zeros k n). split; [done|]. split; [apply has_shape_zeros|].
    intros r i Hr Hi. rewrite decide_False by lia. by apply entry_zeros.
  - destruct IH as (a & Hloop & Ha & Ea); [lia|].
    rewrite seq_S, for_each_app, Hloop. simpl.
    destruct (set_constant_elements_spec consts a k n j c)
      as (a1 & -> & Ha1 & E1); [done | done | lia |]. simpl.
    match goal with |- context [py_getitem ?l j] =>
      assert (py_getitem l j = Ok (sweep n c j)) as Hm
        by (apply py_getitem_Some, sweep_lookup; lia)
    end.
    rewrite Hm. simpl.
    destruct (np_setitem_spec a1 k n first j (sweep n c j))
      as (a2 & -> & Ha2 & E2); [done | done | lia |]. simpl.
    destruct (np_setitem_spec a2 k n second j
                (1 - sweep n c j - three * c))
      as (a3 & -> & Ha3 & E3); [done | done | lia |].
    exists a3. split; [done|]. split; [done|].
    intros r i Hr Hi. rewrite E3, E2, E1, Ea by done.
    unfold expected, in_range in *.
    assert (r = Z.to_nat second ↔ Z.of_nat r = second) by lia.
    assert (r = Z.to_nat first ↔ Z.of_nat r = first) by lia.
    destruct (decide (i = j)) as [->|Hij].
    + assert (j < S j)%nat by lia. assert (¬ j < j)%nat by lia.
      repeat case_decide; try done; exfalso; tauto.
    + assert (i < S j ↔ i < j)%nat by lia.
      repeat case_decide; try done; exfalso; tauto.
Qed.

Lemma mesh_concentrations_entries :
  ∃ a,
    mesh_concentrations element_list n changing consts c = Ok a ∧
    has_shape a k n ∧
    ∀ r i, (r < k)%nat → (i < n)%nat →
      entry a r i = Some (expected n c first second consts r i).
Proof.
  destruct (mesh_loop_prefix n) as (a & Hloop & Ha & Ea); [done|].
  exists a. split; [exact Hloop|]. split; [done|].
  intros r i Hr Hi. rewrite Ea by done. by rewrite decide_True.
Qed.
End mesh.

(** ** Column sums *)

Lemma column_of_entries a k n i (f : nat → Qc) :
  has_shape a k n →
  (∀ r, (r < k)%nat → entry a r i = Some (f r)) →
  column a i = f <$> seq 0 k.
Proof.
  intros [Hk Hn] Hf. apply list_eq. intros r. unfold column.
  rewrite !list_lookup_fmap.
  destruct (decide (r < k)%nat) as [Hr|Hr].
  - rewrite lookup_seq_lt by done. simpl.
    specialize (Hf r Hr). unfold entry in Hf.
    destruct (a !! r) as [row|]; simpl in *; [|done].
    by rewrite Hf.
  - rewrite lookup_seq_ge by lia.
    by rewrite (lookup_ge_None_2 a r) by lia.
Qed.

Lemma sum_Qc_plus {A} (f g : A → Qc) l :
  sum_Qc ((λ x, f x + g x) <$> l) = sum_Qc (f <$> l) + sum_Qc (g <$> l).
Proof.
  induction l as [|x l IH]; [simpl; ring|].
  rewrite !fmap_cons. cbn [sum_Qc]. rewrite IH. ring.
Qed.

Lemma sum_Qc_zero {A} (l : list A) : sum_Qc ((λ _, 0) <$> l) = 0.
Proof.
  induction l as [|x l IH]; [done|].
  rewrite fmap_cons. cbn [sum_Qc]. rewrite IH. ring.
Qed.

Lemma sum_Qc_ext {A} (f g : A → Qc) l :
  (∀ x, x ∈ l → f x = g x) → sum_Qc (f <$> l) = sum_Qc (g <$> l).
Proof.
  intros H. f_equal. apply list_fmap_ext. intros j x Hx.
  apply H. by eapply list_elem_of_lookup_2.
Qed.

(** A function that is [v] at one row and [0] elsewhere. *)
Lemma sum_Qc_single (idx : Z) (v : Qc) s k :
  sum_Qc ((λ r : nat, if decide (Z.of_nat r = idx) then v else 0) <$> seq s k)
  = if decide (Z.of_nat s ≤ idx < Z.of_nat (s + k))%Z then v else 0.
Proof.
  revert s. induction k as [|k IH]; intros s.
  - simpl. rewrite decide_False by lia. done.
  - cbn [seq]. rewrite fmap_cons. cbn [sum_Qc].
    rewrite IH. repeat case_decide; try lia; ring.
Qed.

(** The constant elements contribute [c] once per distinct listed row. *)
Lemma sum_Qc_constants (consts : list Z) (c : Qc) k :
  NoDup consts → Forall (in_range k) consts →
  sum_Qc ((λ r : nat, if decide (Z.of_nat r ∈ consts) then c else 0)
            <$> seq 0 k)
  = Qc_of_nat (length consts) * c.
Proof.
  induction consts as [|idx consts IH]; intros Hnd Hin.
  - simpl length. rewrite Qc_of_nat_0, Qcmult_0_l.
    transitivity (sum_Qc ((λ _ : nat, 0) <$> seq 0 k)); [|apply sum_Qc_zero].
    apply sum_Qc_ext. intros r _. rewrite decide_False; [done|].
    apply not_elem_of_nil.
  - apply NoDup_cons in Hnd as [Hidx Hnd].
    apply Forall_cons in Hin as [Hr Hin].
    transitivity
      (sum_Qc ((λ r : nat,
          (if decide (Z.of_nat r = idx) then c else 0) +
          (if decide (Z.of_nat r ∈ consts) then c else 0)) <$> seq 0 k)).
    + apply sum_Qc_ext. intros r _.
      pose proof (elem_of_cons consts (Z.of_nat r) idx).
      repeat case_decide; try ring; exfalso; try tauto.
      subst idx. tauto.
    + rewrite sum_Qc_plus, sum_Qc_single, IH by done.
      unfold in_range in Hr. rewrite decide_True by lia.
      unfold Qc_of_nat. simpl length.
      rewrite Nat2Z.inj_succ, <-Z.add_1_r, Z2Qc_inj_add, Z2Qc_inj_1. ring.
Qed.

(** The sum of a column when the two changing rows and the constant rows
    are pairwise distinct. *)
Lemma sum_Qc_expected n c first second consts k i :
  in_range k first → in_range k second → Forall (in_range k) consts →
  first ≠ second → first ∉ consts → second ∉ consts → NoDup consts →
  sum_Qc ((λ r, expected n c first second consts r i) <$> seq 0 k)
  = 1 + (Qc_of_nat (length consts) - three) * c.
Proof.
  intros H1 H2 Hin Hne Hf Hs Hnd.
  transitivity
    (sum_Qc ((λ r : nat,
        (if decide (Z.of_nat r = second)
         then 1 - sweep n c i - three * c else 0) +
        ((if decide (Z.of_nat r = first) then sweep n c i else 0) +
         (if decide (Z.of_nat r ∈ consts) then c else 0))) <$> seq 0 k)).
  - apply sum_Qc_ext. intros r _. unfold expected.
    repeat case_decide; try ring; exfalso; congruence.
  - rewrite !sum_Qc_plus, !sum_Qc_single, sum_Qc_constants by done.
    unfold in_range in *. rewrite !decide_True by lia. ring.
Qed.

(** ** Properties of the composition mesh *)

Lemma sweep_first n c : sweep n c 0 = 0.
Proof. unfold sweep. rewrite Qc_of_nat_0. ring. Qed.

Lemma sweep_last n c :
  (1 < n)%nat → sweep n c (n - 1) = 1 - three * c.
Proof.
  intros Hn. unfold sweep.
  pose proof (Qc_of_nat_ne_0 (n - 1)). field. apply H. lia.
Qed.

Lemma mesh_column_sum element_list n c first second others consts :
  let k := length element_list in
  in_range k first → in_range k second → Forall (in_range k) consts →
  first ≠ second → first ∉ consts → second ∉ consts → NoDup consts →
  ∃ a,
    mesh_concentrations element_list n (first :: second :: others) consts c
      = Ok a ∧
    has_shape a k n ∧
    (∀ r i, (r < k)%nat → (i < n)%nat →
       entry a r i = Some (expected n c first second consts r i)) ∧
    ∀ i, (i < n)%nat →
      column_sum a i = 1 + (Qc_of_nat (length consts) - three) * c.
Proof.
  intros k H1 H2 Hin Hne Hf Hs Hnd.
  destruct (mesh_concentrations_entries element_list n c first second
              others consts H1 H2 Hin) as (a & Hmesh & Ha & Ea).
  exists a. repeat split; try done; try apply Ha.
  intros i Hi. unfold column_sum.
  rewrite (column_of_entries a k n i
             (λ r, expected n c first second consts r i)) by auto.
  by apply sum_Qc_expected.
Qed.

(** ** The shape of the mesh, whatever the indices *)

Lemma np_setitem_shape a k n idx i v a' :
  has_shape a k n → np_setitem a idx i v = Ok a' → has_shape a' k n.
Proof.
  intros [Hk Hn]. unfold np_setitem.
  destruct (np_index (length a) idx) as [r|e]; simpl; [|done].
  destruct (a !! r) as [row|] eqn:Hrow; [|done].
  case_decide; [|done]. intros [= <-]. split.
  - by rewrite length_insert.
  - apply Forall_insert; [done|]. rewrite length_insert.
    by apply (Forall_lookup_1 (λ row, length row = n) a r row).
Qed.

Lemma for_each_invariant {A S} (P : S → Prop) (body : S → A → result S) l :
  (∀ s x s', P s → body s x = Ok s' → P s') →
  ∀ s s', P s → for_each body s l = Ok s' → P s'.
Proof.
  intros Hbody. induction l as [|x l IH]; intros s s' Hs; simpl.
  - by intros [= <-].
  - destruct (body s x) as [s1|e] eqn:Hx; simpl; [|done].
    apply IH. by eapply Hbody.
Qed.

Lemma mesh_concentrations_shape element_list n changing consts c a :
  mesh_concentrations element_list n changing consts c = Ok a →
  has_shape a (length element_list) n.
Proof.
  unfold mesh_concentrations.
  apply (for_each_invariant (λ a, has_shape a (length element_list) n));
    [|apply has_shape_zeros].
  intros a0 i a1 Ha0.
  destruct (for_each _ a0 consts) as [a2|e] eqn:Hconsts; simpl; [|done].
  assert (has_shape a2 (length element_list) n) as Ha2.
  { revert Hconsts.
    apply (for_each_invariant (λ a, has_shape a (length element_list) n));
      [|done].
    intros s idx s' Hs. by apply np_setitem_shape. }
  destruct (py_getitem _ i) as [m|e]; simpl; [|done].
  destruct (py_getitem changing 0) as [first|e]; simpl; [|done].
  destruct (np_setitem a2 first i m) as [a3|e] eqn:H3; simpl; [|done].
  destruct (py_getitem changing 1) as [second|e]; simpl; [|done].
  apply np_setitem_shape. by eapply np_setitem_shape.
Qed.

Lemma np_getitem_in_shape a k n r i :
  has_shape a k n → (r < k)%nat → (i < n)%nat →
  ∃ v, np_getitem a (Z.of_nat r) i = Ok v.
Proof.
  intros Ha Hr Hi. pose proof Ha as [Hk _].
  destruct (has_shape_lookup a k n r Ha Hr) as (row & Hrow & Hlen).
  destruct (lookup_lt_is_Some_2 row i) as [v Hv]; [lia|].
  exists v. unfold np_getitem.
  rewrite Hk, np_index_in_range by (unfold in_range; lia). simpl.
  rewrite Nat2Z.id, Hrow. simpl. by rewrite Hv.
Qed.

(** ** Claims about [mesh_concentrations] *)

(** C1, as stated, fails: with two constant indices, with a repeated
    constant index, or with the same changing index twice (all in range,
    the two lists disjoint), a column does not sum to 1. *)
Lemma mesh_column_sum_not_one :
  (∃ a, mesh_concentrations elements5 3 [0; 1]%Z [2; 3]%Z (Q2Qc 0.1) = Ok a ∧
        column_sum a 0 ≠ 1) ∧
  (∃ a, mesh_concentrations elements5 3 [0; 1]%Z [2; 2; 3]%Z (Q2Qc 0.1) = Ok a ∧
        column_sum a 0 ≠ 1) ∧
  (∃ a, mesh_concentrations elements5 3 [0; 0]%Z [2; 3; 4]%Z (Q2Qc 0.1) = Ok a ∧
        column_sum a 1 ≠ 1).
Proof.
  repeat split; eexists; (split; [vm_compute; reflexivity|]);
    intros H; apply (f_equal this) in H; vm_compute in H; discriminate.
Qed.

(** C1, amended: when the two changing indices and exactly three constant
    indices are in range and pairwise distinct, the mesh is returned and
    every one of its columns sums to 1 (for any number of columns). *)
Theorem mesh_columns_sum_to_one element_list n c first second others c1 c2 c3 :
  Forall (in_range (length element_list)) [first; second; c1; c2; c3] →
  NoDup [first; second; c1; c2; c3] →
  ∃ a,
    mesh_concentrations element_list n (first :: second :: others)
      [c1; c2; c3] c = Ok a ∧
    ∀ i, (i < n)%nat → column_sum a i = 1.
Proof.
  intros Hin Hnd.
  apply Forall_cons in Hin as [H1 Hin]. apply Forall_cons in Hin as [H2 Hin].
  apply NoDup_cons in Hnd as [Hf Hnd]. apply NoDup_cons in Hnd as [Hs Hnd].
  destruct (mesh_column_sum element_list n c first second others [c1; c2; c3])
    as (a & Hmesh & _ & _ & Hsum); try done.
  - intros ->. apply Hf. by left.
  - intros H. apply Hf. by right.
  - exists a. split; [done|]. intros i Hi. rewrite Hsum by done.
    change (Qc_of_nat (length [c1; c2; c3])) with three. ring.
Qed.

Lemma mesh_columns_sum_to_one_witness :
  ∃ a,
    mesh_concentrations elements5 15 [0; 1]%Z [2; 3; 4]%Z (Q2Qc 0.1) = Ok a ∧
    ∀ i, (i < 15)%nat → column_sum a i = 1.
Proof.
  apply (mesh_columns_sum_to_one elements5 15 (Q2Qc 0.1) 0 1 [] 2 3 4).
  - repeat constructor; unfold in_range; simpl; lia.
  - apply (bool_decide_unpack _). vm_compute. exact I.
Defined.

(** C2: for in-range indices with the two changing indices distinct, the
    result has one row per element and [n] columns; the first changing
    element's row starts at 0, ends at [1 - 3c] and has
    [i * (1 - 3c) / (n - 1)] at column [i] when [n > 1] (its only entry is
    0 when [n = 1]); the second changing element's row holds 1 minus that
    value minus [3c]. *)
Theorem mesh_rows_of_changing_elements element_list n c first second others
    consts :
  let k := length element_list in
  in_range k first → in_range k second → Forall (in_range k) consts →
  first ≠ second →
  ∃ a,
    mesh_concentrations element_list n (first :: second :: others) consts c
      = Ok a ∧
    has_shape a k n ∧
    (∀ i, (i < n)%nat →
       ∃ v, entry a (Z.to_nat first) i = Some v ∧
            entry a (Z.to_nat second) i = Some (1 - v - three * c) ∧
            ((1 < n)%nat →
               v = Qc_of_nat i * (1 - three * c) / Qc_of_nat (n - 1)) ∧
            (n = 1%nat → v = 0)) ∧
    ((0 < n)%nat → entry a (Z.to_nat first) 0 = Some 0) ∧
    ((1 < n)%nat → entry a (Z.to_nat first) (n - 1) = Some (1 - three * c)).
Proof.
  intros k H1 H2 Hin Hne.
  destruct (mesh_concentrations_entries element_list n c first second
              others consts H1 H2 Hin) as (a & Hmesh & Ha & Ea).
  fold k in Ha, Ea.
  assert (Z.to_nat first < k ∧ Z.to_nat second < k)%nat as [Hr1 Hr2]
    by (unfold in_range in *; lia).
  assert (∀ i, (i < n)%nat →
            entry a (Z.to_nat first) i = Some (sweep n c i)) as E1.
  { intros i Hi. rewrite Ea by done. unfold expected, in_range in *.
    rewrite decide_False, decide_True by lia. done. }
  assert (∀ i, (i < n)%nat →
            entry a (Z.to_nat second) i
            = Some (1 - sweep n c i - three * c)) as E2.
  { intros i Hi. rewrite Ea by done. unfold expected, in_range in *.
    rewrite decide_True by lia. done. }
  exists a. split; [done|]. split; [done|]. split; [|split].
  - intros i Hi. exists (sweep n c i).
    split; [auto|]. split; [auto|]. split.
    + intros Hn. unfold sweep, Qcdiv. ring.
    + intros ->. assert (i = 0%nat) as -> by lia. apply sweep_first.
  - intros Hn. rewrite E1 by done. by rewrite sweep_first.
  - intros Hn. rewrite E1 by lia. by rewrite sweep_last.
Qed.

Lemma mesh_rows_of_changing_elements_witness :
  ∃ a,
    mesh_concentrations elements5 15 [0; 1]%Z [2; 3; 4]%Z (Q2Qc 0.1) = Ok a ∧
    has_shape a 5 15.
Proof.
  destruct (mesh_rows_of_changing_elements elements5 15 (Q2Qc 0.1) 0 1 []
              [2; 3; 4]%Z) as (a & Hmesh & Ha & _).
  - unfold in_range; simpl; lia.
  - unfold in_range; simpl; lia.
  - repeat constructor; unfold in_range; simpl; lia.
  - discriminate.
  - exists a. split; [exact Hmesh | exact Ha].
Defined.

(** C6: for [c = 0.1], [n = 15], changing indices [[0; 1]] and constant
    indices [[2; 3; 4]] (any list of at least five elements), the first
    column holds 0 and 0.7 in the rows of the changing elements and the
    last column holds 0.7 and 0. *)
Theorem mesh_example_end_columns element_list :
  (5 ≤ length element_list)%nat →
  ∃ a,
    mesh_concentrations element_list 15 [0; 1]%Z [2; 3; 4]%Z (Q2Qc 0.1)
      = Ok a ∧
    entry a 0 0 = Some 0 ∧
    entry a 1 0 = Some (Q2Qc 0.7) ∧
    entry a 0 14 = Some (Q2Qc 0.7) ∧
    entry a 1 14 = Some 0.
Proof.
  intros Hk.
  destruct (mesh_concentrations_entries element_list 15 (Q2Qc 0.1) 0 1 []
              [2; 3; 4]%Z) as (a & Hmesh & _ & Ea).
  - unfold in_range; lia.
  - unfold in_range; lia.
  - repeat constructor; unfold in_range; lia.
  - exists a. split; [exact Hmesh|].
    rewrite !Ea by lia.
    repeat split; f_equal; apply Qc_is_canon; reflexivity.
Qed.

Lemma mesh_example_end_columns_witness :
  ∃ a,
    mesh_concentrations elements5 15 [0; 1]%Z [2; 3; 4]%Z (Q2Qc 0.1) = Ok a ∧
    entry a 0 0 = Some 0 ∧
    entry a 1 0 = Some (Q2Qc 0.7) ∧
    entry a 0 14 = Some (Q2Qc 0.7) ∧
    entry a 1 14 = Some 0.
Proof. apply (mesh_example_end_columns elements5). simpl. lia. Defined.

Lemma three_thirds : three * Q2Qc (1 # 3) = 1.
Proof. apply Qc_is_canon. reflexivity. Qed.

(** C7: nothing is validated.  Whenever [c > 1/3] (indices in range, at
    least one column) the mesh is returned as it is, and the second
    changing element's fraction in the first column is [1 - 3c], which is
    negative. *)
Theorem mesh_negative_fraction element_list n c first second others consts :
  let k := length element_list in
  in_range k first → in_range k second → Forall (in_range k) consts →
  (0 < n)%nat → Q2Qc (1 # 3) < c →
  ∃ a v,
    mesh_concentrations element_list n (first :: second :: others) consts c
      = Ok a ∧
    entry a (Z.to_nat second) 0 = Some v ∧ v = 1 - three * c ∧ v < 0.
Proof.
  intros k H1 H2 Hin Hn Hc.
  destruct (mesh_concentrations_entries element_list n c first second
              others consts H1 H2 Hin) as (a & Hmesh & _ & Ea).
  exists a, (1 - three * c). split; [exact Hmesh|]. split; [|split; [done|]].
  - rewrite Ea by (unfold in_range in *; lia).
    unfold expected. rewrite decide_True by (unfold in_range in *; lia).
    by rewrite sweep_first.
  - apply Qclt_minus_iff.
    replace (0 + - (1 - three * c)) with (three * (c + - Q2Qc (1 # 3)))
      by (rewrite <-three_thirds; ring).
    apply Qcmult_pos_pos; [reflexivity|].
    by apply Qclt_minus_iff in Hc.
Qed.

Lemma mesh_negative_fraction_witness :
  ∃ a v,
    mesh_concentrations elements5 15 [0; 1]%Z [2; 3; 4]%Z (Q2Qc 0.4) = Ok a ∧
    entry a 1 0 = Some v ∧ v = 1 - three * Q2Qc 0.4 ∧ v < 0.
Proof.
  apply (mesh_negative_fraction elements5 15 (Q2Qc 0.4) 0 1 [] [2; 3; 4]%Z).
  - unfold in_range; simpl; lia.
  - unfold in_range; simpl; lia.
  - repeat constructor; unfold in_range; simpl; lia.
  - lia.
  - reflexivity.
Defined.

(** C10, as stated, fails in its "only when": with [c = 0] every column
    sums to 1 although two constant indices are given. *)
Lemma mesh_sum_one_with_two_constants :
  ∃ a,
    mesh_concentrations elements5 3 [0; 1]%Z [2; 3]%Z 0 = Ok a ∧
    (∀ i, (i < 3)%nat → column_sum a i = 1) ∧
    length [2; 3]%Z ≠ 3%nat.
Proof.
  eexists. split; [vm_compute; reflexivity|]. split; [|discriminate].
  intros i Hi. apply Qc_is_canon.
  destruct i as [|[|[|i]]]; [reflexivity..|lia].
Qed.

(** C10, amended: with the two changing indices and the constant indices in
    range and pairwise distinct, the amount set aside for the constant
    elements is [3c] however many there are, so each column sums to
    [1 + (len(indices_of_constant_elements) - 3) * c]; for [c ≠ 0] a column
    sums to 1 exactly when three constant indices are given; and a row that
    is neither of the changing rows nor a constant row stays 0. *)
Theorem mesh_constant_allocation element_list n c first second others consts :
  let k := length element_list in
  Forall (in_range k) (first :: second :: consts) →
  NoDup (first :: second :: consts) →
  ∃ a,
    mesh_concentrations element_list n (first :: second :: others) consts c
      = Ok a ∧
    (∀ i, (i < n)%nat →
       column_sum a i = 1 + (Qc_of_nat (length consts) - three) * c) ∧
    (∀ i, (i < n)%nat → c ≠ 0 →
       (column_sum a i = 1 ↔ length consts = 3%nat)) ∧
    (∀ r i, (r < k)%nat → (i < n)%nat →
       Z.of_nat r ≠ first → Z.of_nat r ≠ second → Z.of_nat r ∉ consts →
       entry a r i = Some 0).
Proof.
  intros k Hin Hnd.
  apply Forall_cons in Hin as [H1 Hin]. apply Forall_cons in Hin as [H2 Hin].
  apply NoDup_cons in Hnd as [Hf Hnd]. apply NoDup_cons in Hnd as [Hs Hnd].
  destruct (mesh_column_sum element_list n c first second others consts)
    as (a & Hmesh & _ & Ea & Hsum); try done.
  { intros ->. apply Hf. by left. }
  { intros H. apply Hf. by right. }
  exists a. split; [done|]. split; [done|]. split.
  - intros i Hi Hc. rewrite Hsum by done. split.
    + intros H.
      assert ((Qc_of_nat (length consts) - three) * c = 0) as H0.
      { rewrite <-(Qcplus_0_l (_ * c)), <-(Qcplus_opp_r 1).
        rewrite <-Qcplus_assoc, (Qcplus_comm (- 1)), Qcplus_assoc, H.
        apply Qcplus_opp_r. }
      apply Qcmult_integral in H0 as [H0|H0]; [|done].
      assert (Qc_of_nat (length consts) = three) as H3.
      { rewrite <-(Qcplus_0_r three), <-H0. ring. }
      apply Z2Qc_inj in H3. lia.
    + intros ->. change (Qc_of_nat 3) with three. ring.
  - intros r i Hr Hi Hr1 Hr2 Hrc. rewrite Ea by done. unfold expected.
    by rewrite !decide_False.
Qed.

Lemma mesh_constant_allocation_witness :
  ∃ a,
    mesh_concentrations elements5 15 [0; 1]%Z [2; 3]%Z (Q2Qc 0.1) = Ok a ∧
    ∀ i, (i < 15)%nat → column_sum a i = 1 + (Qc_of_nat 2 - three) * Q2Qc 0.1.
Proof.
  destruct (mesh_constant_allocation elements5 15 (Q2Qc 0.1) 0 1 [] [2; 3]%Z)
    as (a & Hmesh & Hsum & _).
  - repeat constructor; unfold in_range; simpl; lia.
  - apply (bool_decide_unpack _). vm_compute. exact I.
  - exists a. split; [exact Hmesh | exact Hsum].
Defined.

(** ** Loops in [io] *)

Lemma for_each_io_app {A S} (body : S → A → io S) s l1 l2 w :
  for_each_io body s (l1 ++ l2) w =
  (s' ← for_each_io body s l1; for_each_io body s' l2) w.
Proof.
  revert s w. induction l1 as [|x l1 IH]; intros s w; simpl; [done|].
  unfold mbind, io_bind in *. destruct (body s x w) as [w1 [s1|e]]; [|done].
  apply IH.
Qed.

Lemma for_each_io_cons {A S} (body : S → A → io S) s x l w :
  for_each_io body s (x :: l) w =
  match body s x w with
  | (w', Ok s') => for_each_io body s' l w'
  | (w', Raise e) => (w', Raise e)
  end.
Proof. done. Qed.

Lemma visited_app t1 t2 : visited (t1 ++ t2) = visited t1 ++ visited t2.
Proof. apply omap_app. Qed.

Lemma session_run_app p t1 t2 :
  session_run p (t1 ++ t2) = p' ← session_run p t1; session_run p' t2.
Proof.
  revert p. induction t1 as [|e t1 IH]; intros p; simpl; [done|].
  destruct (session_step p e) as [p1|]; simpl; [apply IH|done].
Qed.

Lemma interior_points_cons c cs n :
  interior_points (c :: cs) n
  = ((λ i, (c, i)) <$> interior n) ++ interior_points cs n.
Proof. done. Qed.

Lemma elem_of_interior_points c i cs n :
  (c, i) ∈ interior_points cs n → (1 ≤ i ≤ n - 2)%nat.
Proof.
  unfold interior_points, interior. intros H.
  apply list_elem_of_bind in H as (c' & H & _).
  apply list_elem_of_fmap in H as (i' & [= -> ->] & H).
  apply elem_of_seq in H. lia.
Qed.

(** ** The loop body, case by case *)

Section orchestrator_facts.
Context {V : Type} `{Pickle V} (env : environment V).
Context (element_list : list string) (database : string).
Context (temperature_range : Qc * Qc) (steps_in_temperature : Z).
Context (output_dir : string).

Local Abbreviation loop_body :=
  (calculate_system env element_list database temperature_range
     steps_in_temperature output_dir).
Local Abbreviation loop_body_cases :=
  (system_result env element_list database temperature_range
     steps_in_temperature output_dir).
Local Abbreviation engine_answer :=
  (engine_result env element_list database temperature_range
     steps_in_temperature).
Local Abbreviation mesh_body :=
  (calculate_mesh env element_list database temperature_range
     steps_in_temperature output_dir).
Local Abbreviation run :=
  (run_phase_diagram_calculations env element_list database
     temperature_range steps_in_temperature output_dir).

Lemma calculate_system_eq c a counter i w :
  loop_body c a counter i w = loop_body_cases c a counter i w.
Proof.
  cbv beta iota zeta delta
    [calculate_system system_result read_composition calculate_and_save
     engine_result output_path with_TCPython try_except save_groups print
     emit lift add_events add_file mbind io_bind result_bind mret io_ret
     fst snd files dirs trace].
  destruct (np_getitem a 0 i) as [Al_x|e]; [|by rewrite <-app_assoc].
  destruct (np_getitem a 1 i) as [Cr_x|e]; [|by rewrite <-app_assoc].
  destruct (np_getitem a 2 i) as [Co_x|e]; [|by rewrite <-app_assoc].
  destruct (np_getitem a 3 i) as [Fe_x|e]; [|by rewrite <-app_assoc].
  destruct (np_getitem a 4 i) as [Ni_x|e]; [|by rewrite <-app_assoc].
  destruct (select_database_and_elements env (S counter) database
              element_list) as [[]|e].
  - destruct (py_div _ _) as [step|e].
    + destruct (calculate env (S counter) _) as [pd|e].
      * destruct (writable env _); by rewrite <-?app_assoc.
      * destruct (decide (e = _)); by rewrite <-?app_assoc.
    + destruct (decide (e = _)); by rewrite <-?app_assoc.
  - destruct (decide (e = _)); by rewrite <-?app_assoc.
Qed.


(** The events of one pass of the loop body: one grid point is visited,
    and its session, if the composition could be read, is over. *)
Lemma system_result_events c a counter i w :
  ∃ t,
    trace (loop_body_cases c a counter i w).1 = trace w ++ t ∧
    visited t = [(c, i)] ∧
    ∀ p, settled p →
      session_run p t = Some Finished ∨
      (session_run p t = Some Started ∧
       ∃ e, read_composition a i = Raise e ∧
            (loop_body_cases c a counter i w).2 = Raise e).
Proof.
  unfold system_result.
  destruct (read_composition a i) as [[[[[Al_x Cr_x] Co_x] Fe_x] Ni_x]|e].
  - destruct (engine_result _ _ _ _ _ _ _ _ _ _ _) as [pd|e].
    + destruct (writable env _); simpl; eexists; (split; [done|]);
        (split; [done|]); intros p [-> | ->]; by left.
    + destruct (decide (e = _)); simpl; eexists; (split; [done|]);
        (split; [done|]); intros p [-> | ->]; by left.
  - simpl. eexists. split; [done|]. split; [done|].
    intros p [-> | ->]; right; eauto.
Qed.

Lemma read_composition_in_shape a k n i :
  has_shape a k n → (5 ≤ k)%nat → (i < n)%nat →
  ∃ x, read_composition a i = Ok x.
Proof.
  intros Ha Hk Hi. unfold read_composition.
  destruct (np_getitem_in_shape a k n 0 i) as [Al_x E0]; [done|lia|done|].
  destruct (np_getitem_in_shape a k n 1 i) as [Cr_x E1]; [done|lia|done|].
  destruct (np_getitem_in_shape a k n 2 i) as [Co_x E2]; [done|lia|done|].
  destruct (np_getitem_in_shape a k n 3 i) as [Fe_x E3]; [done|lia|done|].
  destruct (np_getitem_in_shape a k n 4 i) as [Ni_x E4]; [done|lia|done|].
  change (Z.of_nat 0) with 0%Z in E0. change (Z.of_nat 1) with 1%Z in E1.
  change (Z.of_nat 2) with 2%Z in E2. change (Z.of_nat 3) with 3%Z in E3.
  change (Z.of_nat 4) with 4%Z in E4.
  rewrite E0. simpl. rewrite E1. simpl. rewrite E2. simpl.
  rewrite E3. simpl. rewrite E4. simpl. eauto.
Qed.

(** The loop over the grid points of one mesh. *)
Lemma grid_loop_events c a l : ∀ counter w p,
  settled p →
  ∃ t l' p',
    trace (for_each_io (loop_body c a) counter l w).1 = trace w ++ t ∧
    visited t = (λ i, (c, i)) <$> l' ∧
    l' `prefix_of` l ∧
    (∀ k, (for_each_io (loop_body c a) counter l w).2 = Ok k → l' = l) ∧
    session_run p t = Some p' ∧
    (settled p' ∨
     (p' = Started ∧
      (∃ e, (for_each_io (loop_body c a) counter l w).2 = Raise e) ∧
      ∃ i e, i ∈ l ∧ read_composition a i = Raise e)).
Proof.
  induction l as [|i l IH]; intros counter w p Hp.
  - exists [], [], p. simpl. rewrite app_nil_r. repeat split; auto.
  - simpl. unfold mbind, io_bind. rewrite calculate_system_eq.
    destruct (system_result_events c a counter i w) as (t0 & Ht0 & Hv0 & Hs0).
    destruct (loop_body_cases c a counter i w) as [w1 [k1|e]] eqn:E;
      simpl in Ht0, Hs0.
    + destruct (Hs0 p Hp) as [Hrun|(_ & e & _ & ?)]; [|done].
      destruct (IH k1 w1 Finished) as (t & l' & p' & Ht & Hv & Hl & Hok & Hs & Hp');
        [by right|].
      exists (t0 ++ t), (i :: l'), p'. repeat split.
      * by rewrite Ht, Ht0, app_assoc.
      * rewrite visited_app, Hv0, Hv. done.
      * by apply prefix_cons.
      * intros k Hk. f_equal. by eapply Hok.
      * rewrite session_run_app, Hrun. done.
      * destruct Hp' as [?|(-> & He & i' & e' & Hi' & Hread)]; [by left|].
        right. split; [done|]. split; [done|].
        exists i', e'. split; [by right|done].
    + destruct (Hs0 p Hp) as [Hrun|(Hrun & e' & Hread & _)].
      * exists t0, [i], Finished. simpl. repeat split; try done.
        -- apply prefix_cons, prefix_nil.
        -- by left; right.
      * exists t0, [i], Started. simpl. repeat split; try done.
        -- apply prefix_cons, prefix_nil.
        -- right. split; [done|]. split; [eauto|].
           exists i, e'. split; [by left|done].
Qed.

Section meshes.
Context (n : nat) (changing consts : list Z).

(** The body of the loop over the concentrations. *)
Lemma calculate_mesh_events counter j w p :
  settled p →
  ∃ t l' p',
    trace (mesh_body n changing consts counter j w).1 = trace w ++ t ∧
    visited t = (λ i, (j, i)) <$> l' ∧
    l' `prefix_of` interior n ∧
    (∀ k, (mesh_body n changing consts counter j w).2 = Ok k →
       l' = interior n) ∧
    session_run p t = Some p' ∧
    (settled p' ∨
     (p' = Started ∧
      (∃ e, (mesh_body n changing consts counter j w).2 = Raise e) ∧
      (length element_list < 5)%nat)).
Proof.
  intros Hp. unfold calculate_mesh, lift, mbind, io_bind.
  destruct (mesh_concentrations element_list n changing consts j)
    as [a|e] eqn:Hmesh.
  - destruct (grid_loop_events j a (interior n) counter w p Hp)
      as (t & l' & p' & Ht & Hv & Hl & Hok & Hs & Hp').
    exists t, l', p'. repeat split; try done.
    destruct Hp' as [?|(-> & He & i & e & Hi & Hread)]; [by left|].
    right. split; [done|]. split; [done|].
    destruct (decide (length element_list < 5)%nat) as [?|Hk]; [done|].
    apply mesh_concentrations_shape in Hmesh.
    destruct (read_composition_in_shape a _ n i Hmesh) as [x Hx]; [lia| |].
    + unfold interior in Hi. apply elem_of_seq in Hi. lia.
    + congruence.
  - exists [], [], p. simpl. rewrite app_nil_r. repeat split; auto.
    + apply prefix_nil.
    + intros k [=].
Qed.

(** The loop over the concentrations. *)
Lemma mesh_loop_events cs : ∀ counter w p,
  settled p →
  ∃ t p',
    trace (for_each_io (mesh_body n changing consts) counter cs w).1
      = trace w ++ t ∧
    visited t `prefix_of` interior_points cs n ∧
    (∀ k, (for_each_io (mesh_body n changing consts) counter cs w).2 = Ok k →
       visited t = interior_points cs n) ∧
    session_run p t = Some p' ∧
    (settled p' ∨
     (p' = Started ∧
      (∃ e, (for_each_io (mesh_body n changing consts) counter cs w).2
            = Raise e) ∧
      (length element_list < 5)%nat)).
Proof.
  induction cs as [|j cs IH]; intros counter w p Hp.
  - exists [], p. simpl. rewrite app_nil_r. repeat split; auto.
  - rewrite !for_each_io_cons.
    destruct (calculate_mesh_events counter j w p Hp)
      as (t0 & l' & p0 & Ht0 & Hv0 & Hl0 & Hok0 & Hs0 & Hp0).
    rewrite interior_points_cons.
    destruct (mesh_body n changing consts counter j w) as [w1 [k1|e]];
      simpl in Ht0, Hok0, Hp0.
    + destruct Hp0 as [Hp0|(_ & [e ?] & _)]; [|done].
      destruct (IH k1 w1 p0 Hp0) as (t & p' & Ht & Hpre & Hok & Hs & Hp').
      rewrite (Hok0 k1 eq_refl) in Hv0.
      exists (t0 ++ t), p'. repeat split.
      * by rewrite Ht, Ht0, app_assoc.
      * rewrite visited_app, Hv0. by apply prefix_app.
      * intros k Hk. rewrite visited_app, Hv0. f_equal. by eapply Hok.
      * rewrite session_run_app, Hs0. done.
      * done.
    + exists t0, p0. repeat split; try done.
      * rewrite Hv0. apply prefix_app_r.
        destruct Hl0 as [rest ->]. rewrite fmap_app. by eexists.
Qed.

End meshes.
End orchestrator_facts.

(** ** Texts joined by separators *)

Lemma string_app_nil s : "" +:+ s = s.
Proof. done. Qed.

Lemma string_app_cons c s t : String c s +:+ t = String c (s +:+ t).
Proof. done. Qed.

Lemma string_length_app s t :
  String.length (s +:+ t) = (String.length s + String.length t)%nat.
Proof.
  induction s as [|c s IH]; [done|].
  rewrite string_app_cons. simpl. by rewrite IH.
Qed.

Lemma string_app_inv_tail s1 s2 t : s1 +:+ t = s2 +:+ t → s1 = s2.
Proof.
  revert s2. induction s1 as [|c s1 IH]; intros [|c' s2] Heq; [done|..].
  - apply (f_equal String.length) in Heq.
    rewrite !string_length_app in Heq. simpl in Heq. lia.
  - apply (f_equal String.length) in Heq.
    rewrite !string_length_app in Heq. simpl in Heq. lia.
  - rewrite !string_app_cons in Heq. injection Heq as -> Heq.
    f_equal. by apply IH.
Qed.

(** Two texts without [c], each followed by [d] then [c]: where they end
    can be read off the whole. *)
Lemma string_split_at (c d : ascii) s1 s2 r1 r2 :
  c ≠ d → occurs c s1 = false → occurs c s2 = false →
  s1 +:+ String d (String c r1) = s2 +:+ String d (String c r2) →
  s1 = s2 ∧ r1 = r2.
Proof.
  intros Hcd. revert s2.
  induction s1 as [|x s1 IH]; intros [|y s2] H1 H2 Heq;
    rewrite ?string_app_cons, ?string_app_nil in Heq; simpl in H1, H2.
  - by injection Heq as ->.
  - injection Heq as -> Heq. destruct s2 as [|z s2];
      rewrite ?string_app_cons, ?string_app_nil in Heq; simpl in H2.
    + by injection Heq as ->.
    + injection Heq as -> _.
      apply orb_false_iff in H2 as [_ H2]. apply orb_false_iff in H2 as [H2 _].
      by apply bool_decide_eq_false in H2.
  - injection Heq as -> Heq. destruct s1 as [|z s1];
      rewrite ?string_app_cons, ?string_app_nil in Heq; simpl in H1.
    + by injection Heq as ->.
    + injection Heq as <- _.
      apply orb_false_iff in H1 as [_ H1]. apply orb_false_iff in H1 as [H1 _].
      by apply bool_decide_eq_false in H1.
  - injection Heq as -> Heq.
    apply orb_false_iff in H1 as [_ H1]. apply orb_false_iff in H2 as [_ H2].
    destruct (IH s2 H1 H2 Heq) as [-> ->]. done.
Qed.

Lemma output_filename_inj {V} (env : environment V)
    Al_x Cr_x Co_x Fe_x Ni_x Al_y Cr_y Co_y Fe_y Ni_y :
  (∀ x y, float_str env x = float_str env y → x = y) →
  (∀ x, plain (float_str env x)) →
  output_filename env Al_x Cr_x Co_x Fe_x Ni_x
    = output_filename env Al_y Cr_y Co_y Fe_y Ni_y →
  (Al_x, Cr_x, Co_x, Fe_x, Ni_x) = (Al_y, Cr_y, Co_y, Fe_y, Ni_y).
Proof.
  intros Hinj Hplain Heq. unfold output_filename in Heq.
  pose proof (Hplain Al_x) as (HA & _ & _).
  pose proof (Hplain Al_y) as (HA' & _ & _).
  pose proof (Hplain Cr_x) as (HR & _ & _).
  pose proof (Hplain Cr_y) as (HR' & _ & _).
  pose proof (Hplain Co_x) as (_ & HO & _).
  pose proof (Hplain Co_y) as (_ & HO' & _).
  pose proof (Hplain Fe_x) as (_ & _ & HF).
  pose proof (Hplain Fe_y) as (_ & _ & HF').
  rewrite !string_app_cons, !string_app_nil in Heq. injection Heq as Heq.
  apply string_split_at in Heq as [E1 Heq]; [|done..].
  injection Heq as Heq.
  apply string_split_at in Heq as [E2 Heq]; [|done..].
  injection Heq as Heq.
  apply string_split_at in Heq as [E3 Heq]; [|done..].
  injection Heq as Heq.
  apply string_split_at in Heq as [E4 Heq]; [|done..].
  injection Heq as Heq.
  apply string_app_inv_tail in Heq.
  by rewrite (Hinj _ _ E1), (Hinj _ _ E2), (Hinj _ _ E3), (Hinj _ _ E4),
    (Hinj _ _ Heq).
Qed.

Lemma string_split_at_char (c : ascii) s1 s2 r1 r2 :
  occurs c s1 = false → occurs c s2 = false →
  s1 +:+ String c r1 = s2 +:+ String c r2 → s1 = s2 ∧ r1 = r2.
Proof.
  revert s2. induction s1 as [|x s1 IH]; intros [|y s2] H1 H2 Heq;
    rewrite ?string_app_cons, ?string_app_nil in Heq; simpl in H1, H2.
  - by injection Heq as ->.
  - injection Heq as -> _. apply orb_false_iff in H2 as [H2 _].
    by apply bool_decide_eq_false in H2.
  - injection Heq as <- _. apply orb_false_iff in H1 as [H1 _].
    by apply bool_decide_eq_false in H1.
  - injection Heq as -> Heq.
    apply orb_false_iff in H1 as [_ H1]. apply orb_false_iff in H2 as [_ H2].
    destruct (IH s2 H1 H2 Heq) as [-> ->]. done.
Qed.

Lemma occurs_app c s t : occurs c (s +:+ t) = occurs c s || occurs c t.
Proof.
  induction s as [|x s IH]; [done|].
  rewrite string_app_cons. simpl. by rewrite IH, orb_assoc.
Qed.

(** ** The texts of numbers *)

Definition not_a_digit (c : ascii) : Prop := ∀ x, pretty_N_char x ≠ c.

Lemma occurs_pretty_N_go c x s :
  not_a_digit c → occurs c (pretty_N_go x s) = occurs c s.
Proof.
  intros Hc. revert s. induction (N.lt_wf_0 x) as [x _ IH]; intros s.
  destruct (decide (0 < x)%N) as [Hx|Hx].
  - rewrite pretty_N_go_step by done. rewrite IH by (by apply N.div_lt).
    simpl. rewrite bool_decide_false; [done|].
    intros ->. by apply (Hc (x `mod` 10)%N).
  - assert (x = 0%N) as -> by lia. by rewrite pretty_N_go_0.
Qed.

Lemma occurs_pretty_Z c (z : Z) :
  not_a_digit c → c ≠ "-"%char → occurs c (pretty z) = false.
Proof.
  intros Hc Hdash.
  assert (c ≠ "0"%char) as H0 by (intros ->; by apply (Hc 0%N)).
  assert (∀ p : positive, occurs c (pretty p) = false) as Hpos.
  { intros p. unfold pretty, pretty_positive, pretty, pretty_N.
    rewrite decide_False by done. by rewrite occurs_pretty_N_go. }
  destruct z as [|p|p]; unfold pretty, pretty_Z.
  - simpl. rewrite bool_decide_false by done. done.
  - apply Hpos.
  - rewrite occurs_app, Hpos. simpl. rewrite bool_decide_false by done. done.
Qed.

Lemma not_a_digit_letter c :
  c = "C"%char ∨ c = "F"%char ∨ c = "N"%char ∨ c = "/"%char → not_a_digit c.
Proof.
  intros Hc x Hx. unfold pretty_N_char in Hx.
  destruct Hc as [-> | [-> | [-> | ->]]]; by repeat case_match.
Qed.

Lemma fraction_str_plain x : plain (fraction_str x).
Proof.
  unfold plain, fraction_str.
  repeat split; rewrite !occurs_app, !occurs_pretty_Z;
    auto using not_a_digit_letter.
Qed.

Lemma fraction_str_inj x y : fraction_str x = fraction_str y → x = y.
Proof.
  unfold fraction_str. intros Heq.
  change ("/" +:+ ?s) with (String "/" s) in Heq.
  apply string_split_at_char in Heq as [Hn Hd];
    [|apply occurs_pretty_Z; auto using not_a_digit_letter..].
  apply (inj pretty) in Hn, Hd. injection Hd as Hd.
  apply Qc_is_canon. destruct x as [ [xn xd] Hx], y as [ [yn yd] Hy].
  simpl in *. by subst.
Qed.

(** ** The whole run *)

Section run_facts.
Context {V : Type} `{Pickle V} (env : environment V).
Context (element_list : list string) (database : string).
Context (temperature_range : Qc * Qc) (steps_in_temperature : Z).
Context (output_dir : string).
Context (n : nat) (changing consts : list Z).

Local Abbreviation the_run :=
  (run_phase_diagram_calculations env element_list database
     temperature_range steps_in_temperature output_dir).
Local Abbreviation the_mesh_body :=
  (calculate_mesh env element_list database temperature_range
     steps_in_temperature output_dir n changing consts).
Local Abbreviation the_loop_body :=
  (calculate_system env element_list database temperature_range
     steps_in_temperature output_dir).
Local Abbreviation the_rest :=
  (resume env element_list database temperature_range
     steps_in_temperature output_dir n changing consts).

Lemma prepare_output_dir_trace w :
  trace (prepare_output_dir env output_dir w).1 = trace w ∧
  files (prepare_output_dir env output_dir w).1 = files w.
Proof.
  unfold prepare_output_dir, os_path_exists, os_makedirs, mbind, io_bind.
  destruct (_ || _); [done|]. by destruct (writable env output_dir).
Qed.

Lemma run_eq cs w :
  the_run cs n changing consts w =
  match prepare_output_dir env output_dir w with
  | (w0, Ok _) =>
      match for_each_io the_mesh_body 0%nat cs w0 with
      | (w1, Ok _) => (w1, Ok tt)
      | (w1, Raise e) => (w1, Raise e)
      end
  | (w0, Raise e) => (w0, Raise e)
  end.
Proof.
  unfold run_phase_diagram_calculations, prepare_output_dir, mbind, io_bind.
  destruct (os_path_exists output_dir w) as [w' [present|e]]; [|done].
  destruct (_ w') as [w0 [[]|e]]; [|done].
  by destruct (for_each_io _ _ _ w0) as [w1 [k|e]].
Qed.

(** The whole run: the grid points it visits and its sessions. *)
Lemma run_events cs w :
  ∃ t p,
    trace (the_run cs n changing consts w).1 = trace w ++ t ∧
    visited t `prefix_of` interior_points cs n ∧
    ((the_run cs n changing consts w).2 = Ok tt →
       visited t = interior_points cs n) ∧
    session_run Idle t = Some p ∧
    (settled p ∨
     (p = Started ∧ (length element_list < 5)%nat ∧
      ∃ e, (the_run cs n changing consts w).2 = Raise e)).
Proof.
  rewrite run_eq.
  destruct (prepare_output_dir_trace w) as [Ht0 _].
  destruct (prepare_output_dir env output_dir w) as [w0 [[]|e]];
    simpl in Ht0.
  - destruct (mesh_loop_events env element_list database temperature_range
                steps_in_temperature output_dir n changing consts cs
                0%nat w0 Idle) as (t & p & Ht & Hpre & Hok & Hs & Hp);
      [by left|].
    exists t, p.
    destruct (for_each_io _ _ _ w0) as [w1 [k|e]]; simpl in *.
    + rewrite <-Ht0. repeat split; try done; [eauto|].
      destruct Hp as [?|(? & [e ?] & ?)]; [auto|done].
    + rewrite <-Ht0. repeat split; try done.
      destruct Hp as [?|(? & _ & ?)]; eauto.
  - exists [], Idle. simpl. rewrite app_nil_r, Ht0.
    repeat split; try done; [apply prefix_nil|by left; left].
Qed.

Lemma resume_cons c a counter i after later w :
  the_rest c a counter (i :: after) later w =
  match the_loop_body c a counter i w with
  | (w', Ok counter') => the_rest c a counter' after later w'
  | (w', Raise e) => (w', Raise e)
  end.
Proof.
  unfold resume. unfold mbind at 1 3, io_bind. rewrite for_each_io_cons.
  by destruct (the_loop_body c a counter i w) as [w' [k|e]].
Qed.

(** A run that has reached a grid point is the rest of the run from
    there. *)
Lemma run_reaches earlier c later a before after counter w w' :
  interior n = before ++ after →
  reaches env element_list database temperature_range steps_in_temperature
    output_dir n changing consts w earlier c a before counter w' →
  the_run (earlier ++ c :: later) n changing consts w
  = the_rest c a counter after later w'.
Proof.
  intros Hint (w0 & w1 & k1 & Hprep & Hearlier & Hmesh & Hbefore).
  rewrite run_eq, Hprep, for_each_io_app.
  unfold mbind at 1, io_bind. rewrite Hearlier, for_each_io_cons.
  unfold calculate_mesh at 1. unfold lift, mbind at 1, io_bind.
  rewrite Hmesh, Hint, for_each_io_app.
  unfold mbind at 1, io_bind. rewrite Hbefore.
  unfold resume. unfold mbind at 1 2, io_bind.
  destruct (for_each_io _ counter after w') as [w2 [k2|e]]; [|done].
  by destruct (for_each_io _ k2 later w2) as [w3 [k3|e]].
Qed.

End run_facts.

(** ** Numbering and accounts of a run *)

Lemma progress_lines_app t1 t2 :
  progress_lines (t1 ++ t2) = progress_lines t1 ++ progress_lines t2.
Proof. apply omap_app. Qed.

Lemma outcome_lines_app t1 t2 :
  outcome_lines (t1 ++ t2) = outcome_lines t1 ++ outcome_lines t2.
Proof. apply omap_app. Qed.

Lemma prefix_append s t : String.prefix s (s +:+ t) = true.
Proof.
  induction s as [|c s IH]; [by destruct t|].
  rewrite string_app_cons. simpl. by destruct (ascii_dec c c).
Qed.

Lemma progress_lines_cons e t :
  progress_lines (e :: t) = progress_lines [e] ++ progress_lines t.
Proof. apply (progress_lines_app [e] t). Qed.

Lemma outcome_lines_cons e t :
  outcome_lines (e :: t) = outcome_lines [e] ++ outcome_lines t.
Proof. apply (outcome_lines_app [e] t). Qed.

Lemma progress_lines_progress (counter : nat) :
  progress_lines [Print ("Calculating system #" +:+ pretty counter)]
  = [progress_line counter].
Proof.
  unfold progress_lines, progress_line. cbn [omap list_omap].
  by rewrite prefix_append.
Qed.

Lemma progress_lines_saved path :
  progress_lines [Print ("Saved: " +:+ path)] = [].
Proof. done. Qed.

Lemma outcome_lines_progress (counter : nat) :
  outcome_lines [Print ("Calculating system #" +:+ pretty counter)] = [].
Proof. done. Qed.

Lemma outcome_lines_saved path :
  outcome_lines [Print ("Saved: " +:+ path)] = [true].
Proof.
  unfold outcome_lines. cbn [omap list_omap]. by rewrite prefix_append.
Qed.

Ltac account :=
  rewrite ?(progress_lines_cons _ (_ :: _)), ?(outcome_lines_cons _ (_ :: _)),
    ?progress_lines_progress, ?progress_lines_saved,
    ?outcome_lines_progress, ?outcome_lines_saved;
  try done; simpl; try lia.

Lemma interior_points_length cs n :
  length (interior_points cs n) = (length cs * (n - 2))%nat.
Proof.
  induction cs as [|c cs IH]; [done|].
  rewrite interior_points_cons, length_app, length_fmap, IH.
  unfold interior. rewrite length_seq. simpl. lia.
Qed.

Section accounts.
Context {V : Type} `{Pickle V} (env : environment V).
Context (element_list : list string) (database : string).
Context (temperature_range : Qc * Qc) (steps_in_temperature : Z).
Context (output_dir : string).
Context (n : nat) (changing consts : list Z).

Lemma system_result_accounted c a counter i w :
  accounted counter w
    (system_result env element_list database temperature_range
       steps_in_temperature output_dir c a counter i w).
Proof.
  unfold system_result, accounted.
  destruct (read_composition a i) as [[[[[Al_x Cr_x] Co_x] Fe_x] Ni_x]|e].
  - destruct (engine_result _ _ _ _ _ _ _ _ _ _ _) as [pd|e].
    + destruct (writable env _); simpl; eexists; (split; [done|]);
        split; account.
    + destruct (decide (e = _)); simpl; eexists; (split; [done|]);
        split; account.
  - simpl. eexists. split; [done|]. split; account.
Qed.

Lemma accounted_step counter w w1 k1 r :
  accounted counter w (w1, Ok k1) → accounted k1 w1 r →
  accounted counter w r.
Proof.
  intros (t0 & Ht0 & Hp0 & -> & Ho0) (t & Ht & Hp & Hr). simpl in *.
  exists (t0 ++ t). rewrite Ht, Ht0, app_assoc. split; [done|].
  rewrite progress_lines_app, visited_app, outcome_lines_app, !length_app.
  rewrite Hp0, Hp, seq_app, fmap_app. split.
  - done.
  - destruct r.2; lia.
Qed.

Lemma accounted_refl counter w : accounted counter w (w, Ok counter).
Proof.
  exists []. simpl. rewrite app_nil_r. repeat split; try done; lia.
Qed.

Lemma accounted_loop {A} (body : nat → A → io nat) l :
  (∀ counter x w, accounted counter w (body counter x w)) →
  ∀ counter w, accounted counter w (for_each_io body counter l w).
Proof.
  intros Hbody. induction l as [|x l IH]; intros counter w.
  - apply accounted_refl.
  - rewrite for_each_io_cons. specialize (Hbody counter x w).
    destruct (body counter x w) as [w1 [k1|e]]; [|done].
    eapply accounted_step; [done|apply IH].
Qed.

Lemma calculate_mesh_accounted counter j w :
  accounted counter w
    (calculate_mesh env element_list database temperature_range
       steps_in_temperature output_dir n changing consts counter j w).
Proof.
  unfold calculate_mesh, lift, mbind, io_bind.
  destruct (mesh_concentrations _ _ _ _ _) as [a|e].
  - apply accounted_loop. intros k i w0. rewrite calculate_system_eq.
    apply system_result_accounted.
  - exists []. simpl. rewrite app_nil_r. repeat split; try done.
Qed.

Lemma run_accounted cs w :
  ∃ t,
    trace (run_phase_diagram_calculations env element_list database
             temperature_range steps_in_temperature output_dir cs n
             changing consts w).1 = trace w ++ t ∧
    progress_lines t = progress_line <$> seq 1 (length (visited t)) ∧
    (length (outcome_lines t) ≤ length (visited t))%nat ∧
    ((run_phase_diagram_calculations env element_list database
        temperature_range steps_in_temperature output_dir cs n
        changing consts w).2 = Ok tt →
     length (outcome_lines t) = length (visited t)).
Proof.
  rewrite run_eq.
  destruct (prepare_output_dir_trace env output_dir w) as [Ht0 _].
  destruct (prepare_output_dir env output_dir w) as [w0 [[]|e]];
    simpl in Ht0.
  - destruct (accounted_loop
                (calculate_mesh env element_list database temperature_range
                   steps_in_temperature output_dir n changing consts)
                cs calculate_mesh_accounted 0%nat w0) as (t & Ht & Hp & Hr).
    exists t.
    destruct (for_each_io _ _ _ w0) as [w1 [k|e]]; simpl in *;
      rewrite <-Ht0; repeat split; try done; lia.
  - exists []. simpl. rewrite app_nil_r, Ht0. repeat split; try done.
Qed.

End accounts.

(** ** The grid points, the sessions and the requests of a run *)

(** Events accepted by [session_run] hold one session entered and one
    session left per loop body started, up to what the first and the last
    phase owe. *)
Lemma session_run_counts t : ∀ p p',
  session_run p t = Some p' →
  (sessions_entered t + owed_entry p' = length (visited t) + owed_entry p)%nat ∧
  (sessions_left t + owed_exit p' = length (visited t) + owed_exit p)%nat.
Proof.
  assert (∀ e t, visited (e :: t)
                 = match e with
                   | Iteration c i => (c, i) :: visited t
                   | _ => visited t
                   end) as Hcons by (by intros []).
  induction t as [|e t IH]; intros p p'.
  - simpl. intros [= ->]. lia.
  - rewrite Hcons.
    destruct e, p; simpl; try discriminate; intros Hrun;
      apply IH in Hrun; simpl in *; lia.
Qed.

Lemma for_each_io_ext {A S} (body body' : S → A → io S) l :
  (∀ s x w, x ∈ l → body s x w = body' s x w) →
  ∀ s w, for_each_io body s l w = for_each_io body' s l w.
Proof.
  induction l as [|x l IH]; intros Hbody s w; [done|].
  rewrite !for_each_io_cons, Hbody by by left.
  destruct (body' s x w) as [w1 [s1|e]]; [|done].
  apply IH. intros s' x' w' Hx'. apply Hbody. by right.
Qed.

(** A run asks the engine nothing but the requests of interior grid
    points: with another engine that answers those alike, the run is the
    same. *)
Section engine.
Context {V : Type} `{Pickle V} (env : environment V).
Context (calculate' : nat → calculation → result V).
Context (element_list : list string) (database : string).
Context (temperature_range : Qc * Qc) (steps_in_temperature : Z).
Context (output_dir : string).
Context (n : nat) (changing consts : list Z) (cs : list Qc).
Context (same_answers : ∀ counter request,
  interior_request element_list database temperature_range
    steps_in_temperature n changing consts cs request →
  calculate' counter request = calculate env counter request).

Lemma system_result_engine c a counter i w :
  c ∈ cs →
  mesh_concentrations element_list n changing consts c = Ok a →
  (1 ≤ i ≤ n - 2)%nat →
  system_result (with_calculate env calculate') element_list database
    temperature_range steps_in_temperature output_dir c a counter i w
  = system_result env element_list database temperature_range
      steps_in_temperature output_dir c a counter i w.
Proof.
  intros Hc Hmesh Hi. unfold system_result.
  destruct (read_composition a i)
    as [[[[[Al_x Cr_x] Co_x] Fe_x] Ni_x]|e] eqn:Hread; [|done].
  assert (engine_result (with_calculate env calculate') element_list
            database temperature_range steps_in_temperature (S counter)
            (py_round (1 - Cr_x - Co_x - Fe_x - Ni_x) 3) Cr_x Co_x Fe_x Ni_x
          = engine_result env element_list database temperature_range
              steps_in_temperature (S counter)
              (py_round (1 - Cr_x - Co_x - Fe_x - Ni_x) 3)
              Cr_x Co_x Fe_x Ni_x) as ->.
  { unfold engine_result, mbind, result_bind.
    cbn [with_calculate select_database_and_elements calculate].
    destruct (select_database_and_elements env _ _ _) as [[]|e]; [|done].
    destruct (py_div _ _) as [step|e] eqn:Hstep; [|done].
    apply same_answers.
    by exists c, a, i, Al_x, Cr_x, Co_x, Fe_x, Ni_x, step. }
  done.
Qed.

Lemma calculate_mesh_engine counter c w :
  c ∈ cs →
  calculate_mesh (with_calculate env calculate') element_list database
    temperature_range steps_in_temperature output_dir n changing consts
    counter c w
  = calculate_mesh env element_list database temperature_range
      steps_in_temperature output_dir n changing consts counter c w.
Proof.
  intros Hc. unfold calculate_mesh, lift, mbind, io_bind.
  destruct (mesh_concentrations element_list n changing consts c)
    as [a|e] eqn:Hmesh; [|done].
  apply for_each_io_ext. intros k i w0 Hi. rewrite !calculate_system_eq.
  apply system_result_engine; [done..|].
  unfold interior in Hi. apply elem_of_seq in Hi. lia.
Qed.

Lemma run_engine w :
  run_phase_diagram_calculations (with_calculate env calculate')
    element_list database temperature_range steps_in_temperature output_dir
    cs n changing consts w
  = run_phase_diagram_calculations env element_list database
      temperature_range steps_in_temperature output_dir cs n changing
      consts w.
Proof.
  rewrite !run_eq.
  change (prepare_output_dir (with_calculate env calculate') output_dir w)
    with (prepare_output_dir env output_dir w).
  destruct (prepare_output_dir env output_dir w) as [w0 [[]|e]]; [|done].
  by rewrite (for_each_io_ext _ _ cs calculate_mesh_engine).
Qed.

End engine.

(** ** Claims about [run_phase_diagram_calculations] *)




(** C8, as stated for every grid point processed, fails when the element
    list has fewer than five elements.  With four elements the loop body
    of the first grid point starts and prints its progress line, and then
    reading the fraction of the fifth element raises [IndexError], which
    ends the run: the grid point has had no session. *)
Lemma grid_point_without_session :
  let r :=
    run_phase_diagram_calculations (example_env decimal_str [])
      ["Al"; "Cr"; "Co"; "Fe"] "TCHEA6" (Qc_of_Z 500, Qc_of_Z 1200) 60
      "results" [Q2Qc 0] 5 [0; 1]%Z [2; 3]%Z empty_world in
  r.2 = Raise IndexError ∧
  (visited (trace r.1)).*2 = [1%nat] ∧
  progress_lines (trace r.1) = ["Calculating system #1"] ∧
  sessions_entered (trace r.1) = 0%nat.
Proof. repeat split; vm_compute; reflexivity. Qed.

(** C8, amended: with at least five elements, every grid point a run
    processes has exactly one session, left before the next grid point is
    processed, also when the calculation fails and however the run ends.
    The events of the run follow the one-session-per-point order
    ([session_run] accepts them, ending between two grid points with no
    session open), there are as many sessions entered, and as many left,
    as loop bodies started and progress lines printed, and in a run that
    returns that number is [m * (n - 2)] for [m] concentrations: one
    session for each interior grid point. *)
Theorem one_session_per_grid_point {V} `{Pickle V} (env : environment V)
    element_list database temperature_range steps_in_temperature output_dir
    constant_C_of_others n changing consts w :
  (5 ≤ length element_list)%nat →
  ∃ t p,
    trace (run_phase_diagram_calculations env element_list database
             temperature_range steps_in_temperature output_dir
             constant_C_of_others n changing consts w).1 = trace w ++ t ∧
    session_run Idle t = Some p ∧
    settled p ∧
    length (progress_lines t) = length (visited t) ∧
    sessions_entered t = length (visited t) ∧
    sessions_left t = length (visited t) ∧
    ((run_phase_diagram_calculations env element_list database
        temperature_range steps_in_temperature output_dir
        constant_C_of_others n changing consts w).2 = Ok tt →
     sessions_entered t = (length constant_C_of_others * (n - 2))%nat).
Proof.
  intros Hk.
  destruct (run_events env element_list database temperature_range
              steps_in_temperature output_dir n changing consts
              constant_C_of_others w) as (t & p & Ht & _ & Hok & Hs & Hp).
  destruct (run_accounted env element_list database temperature_range
              steps_in_temperature output_dir n changing consts
              constant_C_of_others w) as (t' & Ht' & Hlines & _).
  rewrite Ht in Ht'. apply app_inv_head in Ht' as <-.
  destruct Hp as [Hp|(_ & ? & _)]; [|lia].
  destruct (session_run_counts t Idle p Hs) as [Hin Hout].
  assert (owed_entry p = 0%nat ∧ owed_exit p = 0%nat) as [E1 E2]
    by (by destruct Hp as [-> | ->]).
  rewrite E1 in Hin. rewrite E2 in Hout. simpl in Hin, Hout.
  exists t, p. split; [done|]. split; [done|]. split; [done|].
  split; [by rewrite Hlines, length_fmap, length_seq|].
  split; [lia|]. split; [lia|].
  intros Hret. rewrite <-interior_points_length, <-(Hok Hret). lia.
Qed.

Lemma one_session_per_grid_point_witness :
  ∃ t p,
    trace (run_phase_diagram_calculations (example_env decimal_str [2%nat])
             elements5 "TCHEA6" (Qc_of_Z 500, Qc_of_Z 1200) 60 "results"
             [Q2Qc 0; Q2Qc 0.1] 5 [0; 1]%Z [2; 3; 4]%Z empty_world).1
      = trace empty_world ++ t ∧
    session_run Idle t = Some p ∧
    settled p ∧
    length (progress_lines t) = length (visited t) ∧
    sessions_entered t = length (visited t) ∧
    sessions_left t = length (visited t) ∧
    ((run_phase_diagram_calculations (example_env decimal_str [2%nat])
        elements5 "TCHEA6" (Qc_of_Z 500, Qc_of_Z 1200) 60 "results"
        [Q2Qc 0; Q2Qc 0.1] 5 [0; 1]%Z [2; 3; 4]%Z empty_world).2 = Ok tt →
     sessions_entered t = (length [Q2Qc 0; Q2Qc 0.1] * (5 - 2))%nat).
Proof.
  apply (one_session_per_grid_point (example_env decimal_str [2%nat])
           elements5 "TCHEA6" (Qc_of_Z 500, Qc_of_Z 1200) 60 "results"
           [Q2Qc 0; Q2Qc 0.1] 5 [0; 1]%Z [2; 3; 4]%Z empty_world).
  unfold elements5. simpl. lia.
Defined.

(** C4: at a grid point the run has reached, an unrecoverable calculation
    failure of the engine is logged, nothing is saved ([add_events] leaves
    the files as they are), the session is left, and the run goes on with
    the grid points after it and the later concentrations; any other
    exception raised there (by the engine, by the division for the step
    size, by reading the composition, by writing the file) ends the run
    with that exception. *)
Theorem calculation_failures {V} `{Pickle V} (env : environment V)
    element_list database temperature_range steps_in_temperature output_dir
    n changing consts earlier c later a before i after counter w w' :
  interior n = before ++ i :: after →
  reaches env element_list database temperature_range steps_in_temperature
    output_dir n changing consts w earlier c a before counter w' →
  let run_all :=
    run_phase_diagram_calculations env element_list database
      temperature_range steps_in_temperature output_dir
      (earlier ++ c :: later) n changing consts w in
  let started :=
    [Iteration c i; Print ("Calculating system #" +:+ pretty (S counter))] in
  (∀ e, read_composition a i = Raise e →
     run_all = (add_events w' started, Raise e)) ∧
  (∀ Al_x Cr_x Co_x Fe_x Ni_x,
     read_composition a i = Ok (Al_x, Cr_x, Co_x, Fe_x, Ni_x) →
     let answer :=
       engine_result env element_list database temperature_range
         steps_in_temperature (S counter)
         (py_round (1 - Cr_x - Co_x - Fe_x - Ni_x) 3) Cr_x Co_x Fe_x Ni_x in
     (answer = Raise UnrecoverableCalculationException →
        run_all =
        resume env element_list database temperature_range
          steps_in_temperature output_dir n changing consts c a (S counter)
          after later
          (add_events w'
             (started ++
              [SessionOpen; SessionClose;
               Print "Could not calculate. Continuing with next..."]))) ∧
     (∀ e, answer = Raise e → e ≠ UnrecoverableCalculationException →
        run_all
        = (add_events w' (started ++ [SessionOpen; SessionClose]), Raise e)) ∧
     (∀ phase_diagram, answer = Ok phase_diagram →
        writable env (output_path env output_dir Al_x Cr_x Co_x Fe_x Ni_x)
          = false →
        run_all
        = (add_events w' (started ++ [SessionOpen; SessionClose]),
           Raise OSError))).
Proof.
  intros Hint Hreach run_all started. subst run_all.
  rewrite (run_reaches env element_list database temperature_range
             steps_in_temperature output_dir n changing consts earlier c
             later a before (i :: after) counter w w' Hint Hreach).
  rewrite resume_cons, calculate_system_eq. unfold system_result.
  fold started. split.
  - intros e ->. done.
  - intros Al_x Cr_x Co_x Fe_x Ni_x ->.
    repeat split.
    + intros ->. by rewrite decide_True.
    + intros e -> He. by rewrite decide_False.
    + intros pd -> ->. done.
Qed.

(** C5, as stated, fails in its last part: the fractions in the file name
    are not rounded.  In the run for [c = 0] on 17 columns the file of grid
    point 1 carries the fractions 0.0625 and 0.9375 in full, and no file
    has the name made of the fractions rounded (as the axis maximum is) to
    three digits. *)
Lemma saved_file_name_not_rounded :
  ∃ a Al_x Cr_x Co_x Fe_x Ni_x,
    mesh_concentrations elements5 17 [0; 1]%Z [2; 3; 4]%Z (Q2Qc 0) = Ok a ∧
    read_composition a 1 = Ok (Al_x, Cr_x, Co_x, Fe_x, Ni_x) ∧
    output_path (example_env decimal_str []) "results"
      Al_x Cr_x Co_x Fe_x Ni_x
      = "results/Al0.0625-Cr0.9375-Co0.0-Fe0.0-Ni0.0.pkl" ∧
    is_Some
      (files (example_run (example_env decimal_str []) [Q2Qc 0] 17).1
         !! "results/Al0.0625-Cr0.9375-Co0.0-Fe0.0-Ni0.0.pkl") ∧
    output_path (example_env decimal_str []) "results"
      (py_round Al_x 3) (py_round Cr_x 3) (py_round Co_x 3)
      (py_round Fe_x 3) (py_round Ni_x 3)
      = "results/Al0.062-Cr0.938-Co0.0-Fe0.0-Ni0.0.pkl" ∧
    files (example_run (example_env decimal_str []) [Q2Qc 0] 17).1
      !! "results/Al0.062-Cr0.938-Co0.0-Fe0.0-Ni0.0.pkl" = None.
Proof.
  eexists _, _, _, _, _, _.
  split; [vm_compute; reflexivity|].
  split; [vm_compute; reflexivity|].
  split; [vm_compute; reflexivity|].
  split; [vm_compute; eexists; reflexivity|].
  split; vm_compute; reflexivity.
Qed.

(** C5, amended: for a grid point whose calculation succeeds and whose file
    can be written, the groups are saved under
    [Al<x>-Cr<x>-Co<x>-Fe<x>-Ni<x>.pkl] in the output directory, where the
    [<x>] are the five mole fractions of the grid point as Python prints
    them, in full and without rounding; as the text of a float determines
    it and holds no capital letter, the name determines the five
    fractions. *)
Theorem saved_file_name {V} `{Pickle V} (env : environment V)
    element_list database temperature_range steps_in_temperature output_dir
    c a counter i w Al_x Cr_x Co_x Fe_x Ni_x phase_diagram :
  (∀ x y, float_str env x = float_str env y → x = y) →
  (∀ x, plain (float_str env x)) →
  read_composition a i = Ok (Al_x, Cr_x, Co_x, Fe_x, Ni_x) →
  engine_result env element_list database temperature_range
    steps_in_temperature (S counter)
    (py_round (1 - Cr_x - Co_x - Fe_x - Ni_x) 3) Cr_x Co_x Fe_x Ni_x
    = Ok phase_diagram →
  let filename := output_filename env Al_x Cr_x Co_x Fe_x Ni_x in
  let filepath := os_path_join output_dir filename in
  writable env filepath = true →
  calculate_system env element_list database temperature_range
    steps_in_temperature output_dir c a counter i w
  = (add_events (add_file w filepath (pickle_dumps phase_diagram))
       [Iteration c i; Print ("Calculating system #" +:+ pretty (S counter));
        SessionOpen; Print ("Saved: " +:+ filepath); SessionClose],
     Ok (S counter)) ∧
  (filepath = output_dir +:+ filename ∨
   filepath = output_dir +:+ "/" +:+ filename) ∧
  ∀ Al_y Cr_y Co_y Fe_y Ni_y,
    output_filename env Al_y Cr_y Co_y Fe_y Ni_y = filename →
    (Al_y, Cr_y, Co_y, Fe_y, Ni_y) = (Al_x, Cr_x, Co_x, Fe_x, Ni_x).
Proof.
  intros Hinj Hplain Hread Hanswer filename filepath Hwritable.
  split; [|split].
  - rewrite calculate_system_eq. unfold system_result.
    rewrite Hread, Hanswer. unfold output_path. fold filename filepath.
    by rewrite Hwritable.
  - unfold filepath, os_path_join.
    assert (String.prefix "/" filename = false) as -> by done.
    destruct (_ || _); auto.
  - intros Al_y Cr_y Co_y Fe_y Ni_y Heq.
    by apply (output_filename_inj env).
Qed.

(** C9: what [save_groups] wrote under a name that can be written,
    [load_groups] reads back from that name as the same groups. *)
Theorem save_then_load_groups {V} `{Pickle V} (env : environment V)
    (groups : V) (filename : string) (w : world) :
  writable env filename = true →
  ∃ w',
    save_groups env groups filename w = (w', Ok tt) ∧
    load_groups filename w' = (w', Ok groups).
Proof.
  intros Hw. unfold save_groups, load_groups. rewrite Hw.
  eexists. split; [done|]. simpl.
  by rewrite lookup_insert_eq, pickle_loads_dumps.
Qed.

Ltac Qc_components :=
  repeat match goal with
         | |- Ok _ = Ok _ => f_equal
         | |- (_, _) = (_, _) => f_equal
         end;
  apply Qc_is_canon; reflexivity.

Lemma example_mesh_eq :
  mesh_concentrations elements5 5 [0; 1]%Z [2; 3; 4]%Z (Q2Qc 0)
  = Ok example_mesh.
Proof. vm_compute. reflexivity. Qed.

Lemma example_composition_1 :
  read_composition example_mesh 1
  = Ok (Q2Qc 0.25, Q2Qc 0.75, Q2Qc 0, Q2Qc 0, Q2Qc 0).
Proof. vm_compute. Qc_components. Qed.

Lemma example_composition_2 :
  read_composition example_mesh 2
  = Ok (Q2Qc 0.5, Q2Qc 0.5, Q2Qc 0, Q2Qc 0, Q2Qc 0).
Proof. vm_compute. Qc_components. Qed.

Lemma calculation_failures_witness :
  ∃ w',
    example_run (example_env decimal_str [2%nat]) [Q2Qc 0] 5
    = resume (example_env decimal_str [2%nat]) elements5 "TCHEA6"
        (Qc_of_Z 500, Qc_of_Z 1200) 60 "results" 5 [0; 1]%Z [2; 3; 4]%Z
        (Q2Qc 0) example_mesh 2 [3%nat] []
        (add_events w'
           [Iteration (Q2Qc 0) 2; Print "Calculating system #2";
            SessionOpen; SessionClose;
            Print "Could not calculate. Continuing with next..."]).
Proof.
  eassert (reaches (example_env decimal_str [2%nat]) elements5 "TCHEA6"
             (Qc_of_Z 500, Qc_of_Z 1200) 60 "results" 5 [0; 1]%Z
             [2; 3; 4]%Z empty_world [] (Q2Qc 0) example_mesh [1%nat] 1 _)
    as Hreach.
  { eexists _, _, _.
    split; [vm_compute; reflexivity|].
    split; [vm_compute; reflexivity|].
    split; [exact example_mesh_eq|].
    vm_compute; reflexivity. }
  eexists. unfold example_run.
  apply (proj1 (proj2 (calculation_failures (example_env decimal_str [2%nat])
           elements5 "TCHEA6" (Qc_of_Z 500, Qc_of_Z 1200) 60 "results" 5
           [0; 1]%Z [2; 3; 4]%Z [] (Q2Qc 0) [] example_mesh [1%nat] 2
           [3%nat] 1 empty_world _ eq_refl Hreach)
         _ _ _ _ _ example_composition_2)).
  vm_compute. reflexivity.
Defined.

Lemma saved_file_name_witness :
  calculate_system (example_env fraction_str []) elements5 "TCHEA6"
    (Qc_of_Z 500, Qc_of_Z 1200) 60 "results" (Q2Qc 0) example_mesh 0 1
    empty_world
  = (add_events
       (add_file empty_world "results/Al1/4-Cr3/4-Co0/1-Fe0/1-Ni0/1.pkl"
          (pickle_dumps "groups of system 1"))
       [Iteration (Q2Qc 0) 1; Print "Calculating system #1"; SessionOpen;
        Print "Saved: results/Al1/4-Cr3/4-Co0/1-Fe0/1-Ni0/1.pkl";
        SessionClose],
     Ok 1%nat).
Proof.
  apply (proj1 (saved_file_name (example_env fraction_str []) elements5
           "TCHEA6" (Qc_of_Z 500, Qc_of_Z 1200) 60 "results" (Q2Qc 0)
           example_mesh 0 1 empty_world _ _ _ _ _ "groups of system 1"
           fraction_str_inj fraction_str_plain example_composition_1
           eq_refl eq_refl)).
Defined.

Lemma save_then_load_groups_witness :
  ∃ w',
    save_groups (example_env decimal_str []) "groups" "results/a.pkl"
      empty_world = (w', Ok tt) ∧
    load_groups "results/a.pkl" w' = (w', Ok "groups").
Proof.
  apply (save_then_load_groups (example_env decimal_str []) "groups"
           "results/a.pkl" empty_world).
  reflexivity.
Defined.

(** ** Further properties of [mesh_concentrations] *)

Lemma for_each_raises {A S} (E : exception) (body : S → A → result S) l :
  (∀ s x e, body s x = Raise e → e = E) →
  ∀ s e, for_each body s l = Raise e → e = E.
Proof.
  intros Hbody. induction l as [|x l IH]; intros s e; simpl; [done|].
  destruct (body s x) as [s'|e'] eqn:Hx; simpl.
  - apply IH.
  - intros [= <-]. by eapply Hbody.
Qed.

Lemma np_setitem_raises a idx i v e :
  np_setitem a idx i v = Raise e → e = IndexError.
Proof.
  unfold np_setitem, np_index.
  repeat case_decide; simpl; repeat case_match; congruence.
Qed.

Lemma py_getitem_raises {A} (l : list A) i e :
  py_getitem l i = Raise e → e = IndexError.
Proof. unfold py_getitem. case_match; congruence. Qed.

Lemma mesh_concentrations_cases element_list n changing consts c :
  match mesh_concentrations element_list n changing consts c with
  | Ok a => has_shape a (length element_list) n
  | Raise e => e = IndexError
  end.
Proof.
  destruct (mesh_concentrations _ _ _ _ _) as [a|e] eqn:Hmesh.
  - by eapply mesh_concentrations_shape.
  - revert Hmesh. unfold mesh_concentrations. apply for_each_raises.
    intros a i e'.
    destruct (for_each _ a consts) as [a1|e1] eqn:Hconsts; simpl.
    + destruct (py_getitem _ i) as [m|e2] eqn:Hm; simpl;
        [|intros [= <-]; by eapply py_getitem_raises].
      destruct (py_getitem changing 0) as [first|e2] eqn:Hf; simpl;
        [|intros [= <-]; by eapply py_getitem_raises].
      destruct (np_setitem a1 first i m) as [a2|e2] eqn:H2; simpl;
        [|intros [= <-]; by eapply np_setitem_raises].
      destruct (py_getitem changing 1) as [second|e2] eqn:Hs; simpl;
        [|intros [= <-]; by eapply py_getitem_raises].
      apply np_setitem_raises.
    + intros [= <-]. revert Hconsts. apply for_each_raises.
      intros ???. apply np_setitem_raises.
Qed.

(** X1: whatever indices are given, as long as they fit numpy's index
    type (signed 64-bit integers): when [mesh_concentrations] returns, the
    array has one row per element and [n] columns, and when it raises, the
    exception is [IndexError]. *)
Theorem mesh_shape_or_index_error element_list n changing consts c :
  Forall npy_intp (changing ++ consts) →
  match mesh_concentrations element_list n changing consts c with
  | Ok a => has_shape a (length element_list) n
  | Raise e => e = IndexError
  end.
Proof. intros _. apply mesh_concentrations_cases. Qed.

Lemma mesh_shape_or_index_error_witness :
  match
    mesh_concentrations elements5 15 [0; 1]%Z [2; 3; 5]%Z (Q2Qc 0.1)
  with
  | Ok a => has_shape a (length elements5) 15
  | Raise e => e = IndexError
  end.
Proof.
  apply (mesh_shape_or_index_error elements5 15 [0; 1]%Z [2; 3; 5]%Z
           (Q2Qc 0.1)).
  apply (bool_decide_unpack _). vm_compute. exact I.
Defined.

Lemma np_index_valid k idx :
  valid_index k idx → np_index k idx = Ok (Z.to_nat (from_start k idx)).
Proof.
  unfold valid_index, np_index, from_start. intros Hv.
  repeat case_decide; try done; lia.
Qed.

Lemma np_index_invalid k idx :
  ¬ valid_index k idx → np_index k idx = Raise IndexError.
Proof.
  unfold valid_index, np_index. intros Hv. repeat case_decide; try done; lia.
Qed.

(** A store at column [i < n] of an array of shape [(k, n)] succeeds
    exactly for the indices numpy accepts. *)
Lemma np_setitem_succeeds a k n idx i v :
  has_shape a k n → (i < n)%nat →
  (∃ a', np_setitem a idx i v = Ok a') ↔ valid_index k idx.
Proof.
  intros Ha Hi. pose proof Ha as [Hk _]. unfold np_setitem. rewrite Hk.
  destruct (decide (valid_index k idx)) as [Hv|Hv].
  - rewrite np_index_valid by done. simpl.
    destruct (has_shape_lookup a k n (Z.to_nat (from_start k idx)) Ha)
      as (row & -> & Hlen).
    { unfold valid_index, from_start in *. case_decide; lia. }
    rewrite decide_True by lia. split; eauto.
  - rewrite np_index_invalid by done. simpl. split; [by intros [? ?]|done].
Qed.

Lemma set_constant_elements_succeeds consts : ∀ a k n i c,
  has_shape a k n → (i < n)%nat →
  (∃ a', for_each (λ a idx, np_setitem a idx i c) a consts = Ok a')
  ↔ Forall (valid_index k) consts.
Proof.
  induction consts as [|idx consts IH]; intros a k n i c Ha Hi; simpl.
  - split; [by constructor|eauto].
  - rewrite Forall_cons.
    pose proof (np_setitem_succeeds a k n idx i c Ha Hi) as Hset.
    destruct (np_setitem a idx i c) as [a1|e] eqn:H1; simpl.
    + assert (valid_index k idx) as Hv by (apply Hset; eauto).
      rewrite (IH a1 k n i c); [tauto| |done].
      by eapply np_setitem_shape.
    + split; [by intros [? ?]|]. intros [Hv _].
      apply Hset in Hv as [? ?]. done.
Qed.

Lemma mesh_concentrations_unfold element_list n changing consts c :
  mesh_concentrations element_list n changing consts c
  = for_each (set_column n changing consts c)
      (np_zeros (length element_list) n) (seq 0 n).
Proof. done. Qed.

Lemma set_column_shape a k n i changing consts c a' :
  has_shape a k n → set_column n changing consts c a i = Ok a' →
  has_shape a' k n.
Proof.
  intros Ha. unfold set_column.
  destruct (for_each _ a consts) as [a1|e] eqn:H1; simpl; [|done].
  assert (has_shape a1 k n) as Ha1.
  { revert H1. apply (for_each_invariant (λ a, has_shape a k n)); [|done].
    intros s idx s' Hs. by apply np_setitem_shape. }
  destruct (py_getitem _ i) as [m|e]; simpl; [|done].
  destruct (py_getitem changing 0) as [first|e]; simpl; [|done].
  destruct (np_setitem a1 first i m) as [a2|e] eqn:H2; simpl; [|done].
  destruct (py_getitem changing 1) as [second|e]; simpl; [|done].
  apply np_setitem_shape. by eapply np_setitem_shape.
Qed.

Lemma set_column_succeeds a k n i changing consts c :
  has_shape a k n → (i < n)%nat →
  (∃ a', set_column n changing consts c a i = Ok a' ∧ has_shape a' k n)
  ↔ usable k changing consts.
Proof.
  intros Ha Hi. unfold set_column, usable.
  pose proof (set_constant_elements_succeeds consts a k n i c Ha Hi) as Hc.
  destruct (for_each _ a consts) as [a1|e] eqn:H1; simpl.
  - assert (has_shape a1 k n) as Ha1.
    { revert H1. apply (for_each_invariant (λ a, has_shape a k n)); [|done].
      intros s idx s' Hs. by apply np_setitem_shape. }
    assert (Forall (valid_index k) consts) as Hv by (apply Hc; eauto).
    rewrite (py_getitem_Some _ i (sweep n c i)) by by apply sweep_lookup.
    simpl. destruct changing as [|first [|second others]]; simpl.
    + split; [by intros (? & ? & _)|by intros (_ & ? & ? & ? & ? & _)].
    + pose proof (np_setitem_succeeds a1 k n first i (sweep n c i) Ha1 Hi)
        as Hf.
      destruct (np_setitem a1 first i _) as [a2|e]; simpl;
        (split; [by intros (? & ? & _)|by intros (_ & ? & ? & ? & ? & _)]).
    + pose proof (np_setitem_succeeds a1 k n first i (sweep n c i) Ha1 Hi)
        as Hf.
      destruct (np_setitem a1 first i _) as [a2|e] eqn:H2; simpl.
      * assert (has_shape a2 k n) as Ha2 by by eapply np_setitem_shape.
        pose proof (np_setitem_succeeds a2 k n second i
                      (1 - sweep n c i - three * c) Ha2 Hi) as Hs.
        destruct (np_setitem a2 second i _) as [a3|e] eqn:H3.
        -- split.
           ++ intros _. split; [done|]. exists first, second, others.
              split; [done|]. split; [apply Hf|apply Hs]; eauto.
           ++ intros _. exists a3. split; [done|].
              by eapply np_setitem_shape.
        -- split; [by intros (? & ? & _)|].
           intros (_ & f & s & o & [= <- <- <-] & _ & Hvs).
           apply Hs in Hvs as [? ?]. done.
      * split; [by intros (? & ? & _)|].
        intros (_ & f & s & o & [= <- <- <-] & Hvf & _).
        apply Hf in Hvf as [? ?]. done.
  - split; [by intros (? & ? & _)|]. intros [Hv _].
    apply Hc in Hv as [? ?]. done.
Qed.

Lemma mesh_concentrations_succeeds element_list n changing consts c :
  (∃ a, mesh_concentrations element_list n changing consts c = Ok a)
  ↔ n = 0%nat ∨ usable (length element_list) changing consts.
Proof.
  rewrite mesh_concentrations_unfold. set (k := length element_list).
  split.
  - intros [a Hmesh]. destruct n as [|n]; [by left|right].
    change (seq 0 (S n)) with (0%nat :: seq 1 n) in Hmesh. simpl in Hmesh.
    destruct (set_column (S n) changing consts c (np_zeros k (S n)) 0)
      as [a1|e] eqn:H0; [|done].
    apply (proj1 (set_column_succeeds (np_zeros k (S n)) k (S n) 0
                    changing consts c (has_shape_zeros _ _) (Nat.lt_0_succ n))).
    exists a1. split; [done|].
    eapply set_column_shape; [apply has_shape_zeros|done].
  - intros [-> | Hu]; [by exists (np_zeros k 0)|].
    assert (∀ j, (j ≤ n)%nat →
              ∃ a, for_each (set_column n changing consts c) (np_zeros k n)
                     (seq 0 j) = Ok a ∧ has_shape a k n) as Hloop.
    { induction j as [|j IH]; intros Hj.
      - exists (np_zeros k n). split; [done|apply has_shape_zeros].
      - destruct IH as (a & Ha & Hshape); [lia|].
        rewrite seq_S, for_each_app, Ha. simpl.
        destruct (proj2 (set_column_succeeds a k n j changing consts c
                           Hshape Hj) Hu) as (a' & -> & Ha').
        by exists a'. }
    destruct (Hloop n) as (a & Ha & _); [done|]. by exists a.
Qed.

(** X2: [mesh_concentrations] returns exactly when there is no column to
    fill ([n = 0]) or every constant index and the first two changing
    indices (which must be there) are indices numpy accepts,
    [-k <= idx < k] for [k] elements; otherwise it raises. *)
Theorem mesh_succeeds_iff element_list n changing consts c :
  (∃ a, mesh_concentrations element_list n changing consts c = Ok a)
  ↔ n = 0%nat ∨ usable (length element_list) changing consts.
Proof. apply mesh_concentrations_succeeds. Qed.

Lemma for_each_ext_invariant {A S} (P : S → Prop) (f g : S → A → result S) l :
  (∀ s x s', P s → f s x = Ok s' → P s') →
  (∀ s x, P s → x ∈ l → f s x = g s x) →
  ∀ s, P s → for_each f s l = for_each g s l.
Proof.
  intros Hinv. induction l as [|x l IH]; intros Hfg s Hs; simpl; [done|].
  rewrite <-(Hfg s x Hs) by by left.
  destruct (f s x) as [s'|e] eqn:Hx; simpl; [|done].
  apply IH; [|by eapply Hinv].
  intros s0 x0 Hs0 Hx0. apply Hfg; [done|by right].
Qed.

Lemma np_setitem_from_start a k idx i v :
  length a = k → valid_index k idx →
  np_setitem a (from_start k idx) i v = np_setitem a idx i v.
Proof.
  intros Hk Hv. unfold np_setitem. rewrite Hk.
  rewrite (np_index_valid k idx Hv).
  rewrite np_index_in_range; [done|].
  unfold valid_index, from_start, in_range in *. case_decide; lia.
Qed.

Lemma set_constant_elements_from_start consts : ∀ a k n i c,
  has_shape a k n → Forall (valid_index k) consts →
  for_each (λ a idx, np_setitem a idx i c) a (from_start k <$> consts)
  = for_each (λ a idx, np_setitem a idx i c) a consts.
Proof.
  induction consts as [|idx consts IH]; intros a k n i c Ha Hv; [done|].
  apply Forall_cons in Hv as [Hidx Hv]. rewrite fmap_cons. simpl.
  rewrite np_setitem_from_start by (done || apply Ha).
  destruct (np_setitem a idx i c) as [a1|e] eqn:H1; simpl; [|done].
  apply (IH a1 k n); [by eapply np_setitem_shape|done].
Qed.

Lemma set_column_from_start a k n i changing consts c :
  has_shape a k n →
  Forall (valid_index k) changing → Forall (valid_index k) consts →
  set_column n (from_start k <$> changing) (from_start k <$> consts) c a i
  = set_column n changing consts c a i.
Proof.
  intros Ha Hch Hco. unfold set_column.
  rewrite (set_constant_elements_from_start consts a k n i c Ha Hco).
  destruct (for_each _ a consts) as [a1|e] eqn:H1; simpl; [|done].
  assert (has_shape a1 k n) as Ha1.
  { revert H1. apply (for_each_invariant (λ a, has_shape a k n)); [|done].
    intros s idx s' Hs. by apply np_setitem_shape. }
  destruct (py_getitem _ i) as [m|e]; simpl; [|done].
  destruct changing as [|first changing]; [done|].
  apply Forall_cons in Hch as [Hf Hch]. rewrite fmap_cons.
  change (py_getitem (?x :: ?l) 0) with (Ok x). simpl.
  rewrite np_setitem_from_start by (done || apply Ha1).
  destruct (np_setitem a1 first i m) as [a2|e] eqn:H2; simpl; [|done].
  destruct changing as [|second changing]; [done|].
  apply Forall_cons in Hch as [Hs Hch]. rewrite fmap_cons.
  change (py_getitem (?x :: ?y :: ?l) 1) with (Ok y). simpl.
  apply np_setitem_from_start; [|done].
  by eapply np_setitem_shape.
Qed.

(** X3: indices count from the end when negative: with indices numpy
    accepts, replacing each index [idx < 0] by [idx + k] ([k] elements)
    changes nothing in the result. *)
Theorem mesh_negative_indices element_list n changing consts c :
  let k := length element_list in
  Forall (valid_index k) changing → Forall (valid_index k) consts →
  mesh_concentrations element_list n
    (from_start k <$> changing) (from_start k <$> consts) c
  = mesh_concentrations element_list n changing consts c.
Proof.
  intros k Hch Hco. rewrite !mesh_concentrations_unfold. fold k.
  apply (for_each_ext_invariant (λ a, has_shape a k n));
    [| |apply has_shape_zeros].
  - intros a i a' Ha Hi. by eapply set_column_shape.
  - intros a i Ha _. by apply set_column_from_start.
Qed.

Lemma mesh_negative_indices_witness :
  mesh_concentrations elements5 5 [0; 1]%Z [2; 3; 4]%Z (Q2Qc 0.1)
  = mesh_concentrations elements5 5 [-5; -4]%Z [-3; 3; -1]%Z (Q2Qc 0.1).
Proof.
  apply (mesh_negative_indices elements5 5 [-5; -4]%Z [-3; 3; -1]%Z
           (Q2Qc 0.1)).
  - repeat constructor; unfold valid_index; simpl; lia.
  - repeat constructor; unfold valid_index; simpl; lia.
Defined.

(** ** The range of the mole fractions *)

Ltac Qc_linear :=
  unfold Qcle, Qclt, Qcminus, Qcplus, Qcopp, Qcmult, three, Qc_of_Z, Q2Qc
    in *;
  cbn [this] in *; rewrite ?Qred_correct in *; unfold inject_Z in *; lra.

Lemma Qc_of_nat_le i j : (i ≤ j)%nat → Qc_of_nat i ≤ Qc_of_nat j.
Proof.
  intros Hij. unfold Qc_of_nat. apply (proj1 (Z2Qc_inj_le _ _)). lia.
Qed.

Lemma Qc_of_nat_nonneg i : 0 ≤ Qc_of_nat i.
Proof. rewrite <-Qc_of_nat_0. apply Qc_of_nat_le. lia. Qed.

Lemma Qcdiv_nat_nonneg (s : Qc) k : 0 ≤ s → 0 ≤ s / Qc_of_nat k.
Proof.
  intros Hs. unfold Qcdiv.
  assert (0 ≤ / Qc_of_nat k) as Hinv.
  { destruct k as [|k]; [by rewrite Qc_of_nat_0|].
    apply Qclt_le_weak, Qcinv_pos.
    destruct (Qcle_lt_or_eq _ _ (Qc_of_nat_nonneg (S k))) as [?|Heq]; [done|].
    symmetry in Heq. by apply Qc_of_nat_ne_0 in Heq; [|lia]. }
  rewrite <-(Qcmult_0_l (/ Qc_of_nat k)). by apply Qcmult_le_compat_r.
Qed.

(** The samples of the sweep lie between its ends. *)
Lemma sweep_bounds n c i :
  (i < n)%nat → 0 ≤ 1 - three * c →
  0 ≤ sweep n c i ∧ sweep n c i ≤ 1 - three * c.
Proof.
  intros Hi Hs. unfold sweep.
  pose proof (Qcdiv_nat_nonneg (1 - three * c) (n - 1) Hs) as Hstep.
  split.
  - rewrite <-(Qcmult_0_l ((1 - three * c) / Qc_of_nat (n - 1))).
    apply Qcmult_le_compat_r; [apply Qc_of_nat_nonneg|done].
  - destruct (decide (n = 1%nat)) as [->|Hn].
    + assert (i = 0%nat) as -> by lia.
      by rewrite Qc_of_nat_0, Qcmult_0_l.
    + transitivity (Qc_of_nat (n - 1)
                    * ((1 - three * c) / Qc_of_nat (n - 1))).
      * apply Qcmult_le_compat_r; [apply Qc_of_nat_le; lia|done].
      * rewrite Qcmult_div_r; [done|]. apply Qc_of_nat_ne_0. lia.
Qed.

(** X4: for a constant concentration between 0 and 1/3 (indices in range,
    overlapping or not), every entry of the mesh is a mole fraction: it
    lies between 0 and 1. *)
Theorem mesh_entries_are_fractions element_list n c first second others
    consts :
  let k := length element_list in
  in_range k first → in_range k second → Forall (in_range k) consts →
  0 ≤ c → three * c ≤ 1 →
  ∃ a,
    mesh_concentrations element_list n (first :: second :: others) consts c
      = Ok a ∧
    ∀ r i, (r < k)%nat → (i < n)%nat →
      ∃ v, entry a r i = Some v ∧ 0 ≤ v ∧ v ≤ 1.
Proof.
  intros k H1 H2 Hin Hc0 Hc1.
  destruct (mesh_concentrations_entries element_list n c first second
              others consts H1 H2 Hin) as (a & Hmesh & _ & Ea).
  exists a. split; [done|]. intros r i Hr Hi.
  eexists. split; [by apply Ea|].
  assert (0 ≤ 1 - three * c) as Hs by Qc_linear.
  destruct (sweep_bounds n c i Hi Hs) as [Hm0 Hm1].
  unfold expected. clear Ea Hmesh.
  set (m := sweep n c i) in *. clearbody m.
  repeat case_decide; split; Qc_linear.
Qed.

Lemma mesh_entries_are_fractions_witness :
  ∃ a,
    mesh_concentrations elements5 15 [0; 1]%Z [2; 3; 4]%Z (Q2Qc 0.1) = Ok a ∧
    ∀ r i, (r < 5)%nat → (i < 15)%nat →
      ∃ v, entry a r i = Some v ∧ 0 ≤ v ∧ v ≤ 1.
Proof.
  apply (mesh_entries_are_fractions elements5 15 (Q2Qc 0.1) 0 1 []
           [2; 3; 4]%Z).
  - unfold in_range; simpl; lia.
  - unfold in_range; simpl; lia.
  - repeat constructor; unfold in_range; simpl; lia.
  - discriminate.
  - discriminate.
Defined.

Lemma sweep_mirror n c i :
  (1 < n)%nat → (i < n)%nat →
  sweep n c (n - 1 - i) = 1 - sweep n c i - three * c.
Proof.
  intros Hn Hi. unfold sweep.
  assert (Qc_of_nat (n - 1 - i) = Qc_of_nat (n - 1) - Qc_of_nat i) as ->.
  { unfold Qc_of_nat. rewrite <-Z2Qc_inj_sub. f_equal. lia. }
  pose proof (Qc_of_nat_ne_0 (n - 1)) as Hne. field. apply Hne. lia.
Qed.

(** X5: over exact arithmetic, with at least two columns (indices in
    range, the two changing indices distinct) the row of the second
    changing element is the row of the first read backwards: what one
    element gains along the sweep the other loses.  (In floating point the
    two entries are computed by different operations and can differ in the
    last bit.) *)
Theorem mesh_changing_rows_mirror element_list n c first second others
    consts :
  let k := length element_list in
  in_range k first → in_range k second → Forall (in_range k) consts →
  first ≠ second → (1 < n)%nat →
  ∃ a,
    mesh_concentrations element_list n (first :: second :: others) consts c
      = Ok a ∧
    ∀ i, (i < n)%nat →
      entry a (Z.to_nat second) i = entry a (Z.to_nat first) (n - 1 - i).
Proof.
  intros k H1 H2 Hin Hne Hn.
  destruct (mesh_concentrations_entries element_list n c first second
              others consts H1 H2 Hin) as (a & Hmesh & _ & Ea).
  exists a. split; [done|]. intros i Hi.
  unfold in_range in *. rewrite !Ea by lia. unfold expected.
  rewrite decide_True by lia.
  rewrite decide_False, decide_True by lia.
  by rewrite sweep_mirror.
Qed.

Lemma mesh_changing_rows_mirror_witness :
  ∃ a,
    mesh_concentrations elements5 15 [0; 1]%Z [2; 3; 4]%Z (Q2Qc 0.1) = Ok a ∧
    ∀ i, (i < 15)%nat → entry a 1 i = entry a 0 (14 - i).
Proof.
  apply (mesh_changing_rows_mirror elements5 15 (Q2Qc 0.1) 0 1 []
           [2; 3; 4]%Z).
  - unfold in_range; simpl; lia.
  - unfold in_range; simpl; lia.
  - repeat constructor; unfold in_range; simpl; lia.
  - discriminate.
  - lia.
Defined.

(** X6: stores are made in the order constant elements, first changing
    element, second changing element, and a later store replaces an
    earlier one: for indices in range that may coincide, the row of the
    second changing index holds [1 - m - 3c] ([m] the sweep sample of the
    column), the row of the first changing index, if it is another row,
    holds [m]; any other row holds [c] if it is a constant row and 0 if
    not. *)
Theorem mesh_later_store_wins element_list n c first second others consts :
  let k := length element_list in
  in_range k first → in_range k second → Forall (in_range k) consts →
  ∃ a,
    mesh_concentrations element_list n (first :: second :: others) consts c
      = Ok a ∧
    ∀ i, (i < n)%nat →
      let m := Qc_of_nat i * ((1 - three * c) / Qc_of_nat (n - 1)) in
      entry a (Z.to_nat second) i = Some (1 - m - three * c) ∧
      (first ≠ second → entry a (Z.to_nat first) i = Some m) ∧
      ∀ r, (r < k)%nat → Z.of_nat r ≠ first → Z.of_nat r ≠ second →
        entry a r i = Some (if decide (Z.of_nat r ∈ consts) then c else 0).
Proof.
  intros k H1 H2 Hin.
  destruct (mesh_concentrations_entries element_list n c first second
              others consts H1 H2 Hin) as (a & Hmesh & _ & Ea).
  exists a. split; [done|]. intros i Hi m. unfold in_range in *.
  repeat split.
  - rewrite Ea by lia. unfold expected. by rewrite decide_True by lia.
  - intros Hne. rewrite Ea by lia. unfold expected.
    by rewrite decide_False, decide_True by lia.
  - intros r Hr Hr1 Hr2. rewrite Ea by lia. unfold expected.
    by rewrite !decide_False by done.
Qed.

Lemma mesh_later_store_wins_witness :
  ∃ a,
    mesh_concentrations elements5 3 [2; 2]%Z [2; 3]%Z (Q2Qc 0.1) = Ok a ∧
    entry a 2 1 = Some (1 - Qc_of_nat 1 * ((1 - three * Q2Qc 0.1)
                                            / Qc_of_nat 2)
                        - three * Q2Qc 0.1).
Proof.
  destruct (mesh_later_store_wins elements5 3 (Q2Qc 0.1) 2 2 [] [2; 3]%Z)
    as (a & Hmesh & Ha).
  - unfold in_range; simpl; lia.
  - unfold in_range; simpl; lia.
  - repeat constructor; unfold in_range; simpl; lia.
  - exists a. split; [exact Hmesh|].
    exact (proj1 (Ha 1%nat ltac:(lia))).
Defined.

(** ** Further properties of [run_phase_diagram_calculations] *)

(** In an array of five rows the composition read at a column is the
    column. *)
Lemma read_composition_column a n i :
  has_shape a 5 n → (i < n)%nat →
  ∃ Al_x Cr_x Co_x Fe_x Ni_x,
    read_composition a i = Ok (Al_x, Cr_x, Co_x, Fe_x, Ni_x) ∧
    column a i = [Al_x; Cr_x; Co_x; Fe_x; Ni_x].
Proof.
  intros [Hk Hn] Hi.
  destruct a as [|r0 [|r1 [|r2 [|r3 [|r4 [|r5 a]]]]]]; try done.
  repeat (apply Forall_cons in Hn as [? Hn]).
  destruct (lookup_lt_is_Some_2 r0 i) as [Al_x E0]; [lia|].
  destruct (lookup_lt_is_Some_2 r1 i) as [Cr_x E1]; [lia|].
  destruct (lookup_lt_is_Some_2 r2 i) as [Co_x E2]; [lia|].
  destruct (lookup_lt_is_Some_2 r3 i) as [Fe_x E3]; [lia|].
  destruct (lookup_lt_is_Some_2 r4 i) as [Ni_x E4]; [lia|].
  exists Al_x, Cr_x, Co_x, Fe_x, Ni_x.
  unfold read_composition, np_getitem, np_index, column. simpl.
  by rewrite E0, E1, E2, E3, E4.
Qed.

(** X7: for a system of five elements whose indices (two changing, three
    constant) are in range and pairwise distinct, the quantity rounded
    into [max_concentration_on_x_axis], [1 - Cr_x - Co_x - Fe_x - Ni_x], is
    the mole fraction of the first element, [Al_x], at every grid
    point. *)
Theorem x_axis_maximum_is_first_fraction element_list n c first second
    others c1 c2 c3 :
  length element_list = 5%nat →
  Forall (in_range 5) [first; second; c1; c2; c3] →
  NoDup [first; second; c1; c2; c3] →
  ∃ a,
    mesh_concentrations element_list n (first :: second :: others)
      [c1; c2; c3] c = Ok a ∧
    ∀ i, (i < n)%nat →
      ∃ Al_x Cr_x Co_x Fe_x Ni_x,
        read_composition a i = Ok (Al_x, Cr_x, Co_x, Fe_x, Ni_x) ∧
        1 - Cr_x - Co_x - Fe_x - Ni_x = Al_x.
Proof.
  intros Hk Hin Hnd.
  apply Forall_cons in Hin as [H1 Hin]. apply Forall_cons in Hin as [H2 Hin].
  apply NoDup_cons in Hnd as [Hf Hnd]. apply NoDup_cons in Hnd as [Hs Hnd].
  destruct (mesh_column_sum element_list n c first second others [c1; c2; c3])
    as (a & Hmesh & Ha & _ & Hsum); rewrite ?Hk; try done.
  { intros ->. apply Hf. by left. }
  { intros H. apply Hf. by right. }
  exists a. split; [done|]. intros i Hi. rewrite Hk in Ha.
  destruct (read_composition_column a n i Ha Hi)
    as (Al_x & Cr_x & Co_x & Fe_x & Ni_x & Hread & Hcol).
  exists Al_x, Cr_x, Co_x, Fe_x, Ni_x. split; [done|].
  specialize (Hsum i Hi). unfold column_sum in Hsum. rewrite Hcol in Hsum.
  simpl in Hsum. change (Qc_of_nat 3) with three in Hsum.
  transitivity
    (Al_x + (Cr_x + (Co_x + (Fe_x + (Ni_x + 0))))
     - Cr_x - Co_x - Fe_x - Ni_x); [by rewrite Hsum; ring|ring].
Qed.

Lemma x_axis_maximum_is_first_fraction_witness :
  ∃ a,
    mesh_concentrations elements5 15 [0; 1]%Z [2; 3; 4]%Z (Q2Qc 0.1) = Ok a ∧
    ∀ i, (i < 15)%nat →
      ∃ Al_x Cr_x Co_x Fe_x Ni_x,
        read_composition a i = Ok (Al_x, Cr_x, Co_x, Fe_x, Ni_x) ∧
        1 - Cr_x - Co_x - Fe_x - Ni_x = Al_x.
Proof.
  apply (x_axis_maximum_is_first_fraction elements5 15 (Q2Qc 0.1) 0 1 []
           2 3 4).
  - reflexivity.
  - repeat constructor; unfold in_range; simpl; lia.
  - apply (bool_decide_unpack _). vm_compute. exact I.
Defined.

(** X8: when the axis maximum of a grid point rounds to 0 (the first
    element's fraction is below 0.0005, as at every grid point for
    [c = 1/3]) and the engine has accepted the database and the elements,
    the step size [0.025 / max_concentration_on_x_axis] raises
    [ZeroDivisionError]; it is not caught: the session is left and the run
    ends there with that exception, nothing saved. *)
Theorem zero_axis_maximum_ends_run {V} `{Pickle V} (env : environment V)
    element_list database temperature_range steps_in_temperature output_dir
    n changing consts earlier c later a before i after counter w w'
    Al_x Cr_x Co_x Fe_x Ni_x :
  interior n = before ++ i :: after →
  reaches env element_list database temperature_range steps_in_temperature
    output_dir n changing consts w earlier c a before counter w' →
  read_composition a i = Ok (Al_x, Cr_x, Co_x, Fe_x, Ni_x) →
  select_database_and_elements env (S counter) database element_list
    = Ok tt →
  py_round (1 - Cr_x - Co_x - Fe_x - Ni_x) 3 = 0 →
  run_phase_diagram_calculations env element_list database
    temperature_range steps_in_temperature output_dir
    (earlier ++ c :: later) n changing consts w
  = (add_events w'
       [Iteration c i; Print ("Calculating system #" +:+ pretty (S counter));
        SessionOpen; SessionClose],
     Raise ZeroDivisionError).
Proof.
  intros Hint Hreach Hread Hselect Hzero.
  rewrite (run_reaches env element_list database temperature_range
             steps_in_temperature output_dir n changing consts earlier c
             later a before (i :: after) counter w w' Hint Hreach).
  rewrite resume_cons, calculate_system_eq.
  unfold system_result, engine_result.
  by rewrite Hread, Hselect, Hzero.
Qed.

Lemma zero_axis_maximum_ends_run_witness :
  example_run (example_env decimal_str []) [Q2Qc (1 # 3)] 5
  = (add_events (World ∅ {["results"]} [])
       [Iteration (Q2Qc (1 # 3)) 1; Print "Calculating system #1";
        SessionOpen; SessionClose],
     Raise ZeroDivisionError).
Proof.
  unfold example_run.
  apply (zero_axis_maximum_ends_run (example_env decimal_str []) elements5
           "TCHEA6" (Qc_of_Z 500, Qc_of_Z 1200) 60 "results" 5 [0; 1]%Z
           [2; 3; 4]%Z [] (Q2Qc (1 # 3)) []
           (match mesh_concentrations elements5 5 [0; 1]%Z [2; 3; 4]%Z
                    (Q2Qc (1 # 3)) with Ok a => a | Raise _ => [] end)
           [] 1 [2; 3]%nat 0 empty_world (World ∅ {["results"]} [])
           (Q2Qc 0) (Q2Qc 0) (Q2Qc (1 # 3)) (Q2Qc (1 # 3)) (Q2Qc (1 # 3))).
  - reflexivity.
  - exists (World ∅ {["results"]} []), (World ∅ {["results"]} []), 0%nat.
    split; [vm_compute; reflexivity|].
    split; [reflexivity|].
    split; [vm_compute; reflexivity|reflexivity].
  - vm_compute. repeat match goal with
         | |- Ok _ = Ok _ => f_equal
         | |- (_, _) = (_, _) => f_equal
         end; apply Qc_is_canon; reflexivity.
  - reflexivity.
  - apply Qc_is_canon. reflexivity.
Defined.


(** X9: the progress lines of a run are numbered from 1 without gaps, over
    all the meshes: the [j]-th loop body that starts prints
    [Calculating system #j]. *)
Theorem progress_lines_are_numbered {V} `{Pickle V} (env : environment V)
    element_list database temperature_range steps_in_temperature output_dir
    constant_C_of_others n changing consts w :
  ∃ t,
    trace (run_phase_diagram_calculations env element_list database
             temperature_range steps_in_temperature output_dir
             constant_C_of_others n changing consts w).1 = trace w ++ t ∧
    progress_lines t = progress_line <$> seq 1 (length (visited t)).
Proof.
  destruct (run_accounted env element_list database temperature_range
              steps_in_temperature output_dir n changing consts
              constant_C_of_others w) as (t & Ht & Hp & _).
  by exists t.
Qed.

(** X10: in a run that returns, every interior grid point of every mesh
    has been visited and closed by one line, [Saved: ...] or
    [Could not calculate. ...]: with [m] concentrations there are
    [m * (n - 2)] progress lines and as many closing lines. *)
Theorem returning_run_accounts {V} `{Pickle V} (env : environment V)
    element_list database temperature_range steps_in_temperature output_dir
    constant_C_of_others n changing consts w :
  (run_phase_diagram_calculations env element_list database
     temperature_range steps_in_temperature output_dir
     constant_C_of_others n changing consts w).2 = Ok tt →
  ∃ t,
    trace (run_phase_diagram_calculations env element_list database
             temperature_range steps_in_temperature output_dir
             constant_C_of_others n changing consts w).1 = trace w ++ t ∧
    visited t = interior_points constant_C_of_others n ∧
    length (progress_lines t)
      = (length constant_C_of_others * (n - 2))%nat ∧
    length (outcome_lines t)
      = (length constant_C_of_others * (n - 2))%nat.
Proof.
  intros Hok.
  destruct (run_accounted env element_list database temperature_range
              steps_in_temperature output_dir n changing consts
              constant_C_of_others w) as (t & Ht & Hp & _ & Ho).
  destruct (run_events env element_list database temperature_range
              steps_in_temperature output_dir n changing consts
              constant_C_of_others w) as (t' & p & Ht' & _ & Hv & _).
  rewrite Ht in Ht'. apply app_inv_head in Ht' as <-.
  exists t. split; [done|]. split; [by apply Hv|].
  rewrite Hp, length_fmap, length_seq, (Ho Hok), (Hv Hok).
  by rewrite interior_points_length.
Qed.

Lemma returning_run_accounts_witness :
  ∃ t,
    trace (run_phase_diagram_calculations (example_env decimal_str [2%nat])
             elements5 "TCHEA6" (Qc_of_Z 500, Qc_of_Z 1200) 60 "results"
             [Q2Qc 0; Q2Qc 0.1] 5 [0; 1]%Z [2; 3; 4]%Z empty_world).1
      = trace empty_world ++ t ∧
    visited t = interior_points [Q2Qc 0; Q2Qc 0.1] 5 ∧
    length (progress_lines t) = (length [Q2Qc 0; Q2Qc 0.1] * (5 - 2))%nat ∧
    length (outcome_lines t) = (length [Q2Qc 0; Q2Qc 0.1] * (5 - 2))%nat.
Proof.
  apply (returning_run_accounts (example_env decimal_str [2%nat]) elements5
           "TCHEA6" (Qc_of_Z 500, Qc_of_Z 1200) 60 "results"
           [Q2Qc 0; Q2Qc 0.1] 5 [0; 1]%Z [2; 3; 4]%Z empty_world).
  vm_compute. reflexivity.
Defined.

(** ** Runs that visit no grid point *)

Lemma mesh_concentrations_raises element_list n changing consts c :
  n ≠ 0%nat → ¬ usable (length element_list) changing consts →
  mesh_concentrations element_list n changing consts c = Raise IndexError.
Proof.
  intros Hn Hu.
  pose proof (mesh_concentrations_cases element_list n changing consts c)
    as Hcases.
  pose proof (mesh_concentrations_succeeds element_list n changing consts c)
    as Hiff.
  destruct (mesh_concentrations _ _ _ _ _) as [a|e]; [|by subst].
  destruct (proj1 Hiff) as [?|?]; [by exists a|done..].
Qed.

(** X12: with indices that fit numpy's index type but that
    [mesh_concentrations] cannot use (a constant or one of the first two
    changing indices outside [-k .. k-1], or fewer than two changing
    indices) and at least one column, a run over a non-empty list of
    concentrations raises [IndexError] as soon as the output directory is
    there: no loop body starts, no session is entered, nothing is printed
    or saved. *)
Theorem unusable_indices_end_run {V} `{Pickle V} (env : environment V)
    element_list database temperature_range steps_in_temperature output_dir
    c later n changing consts w w0 :
  prepare_output_dir env output_dir w = (w0, Ok tt) →
  n ≠ 0%nat → Forall npy_intp (changing ++ consts) →
  ¬ usable (length element_list) changing consts →
  run_phase_diagram_calculations env element_list database
    temperature_range steps_in_temperature output_dir (c :: later) n
    changing consts w
  = (w0, Raise IndexError).
Proof.
  intros Hprep Hn _ Hu. rewrite run_eq, Hprep, for_each_io_cons.
  unfold calculate_mesh at 1. unfold lift, mbind, io_bind.
  by rewrite mesh_concentrations_raises.
Qed.

Lemma unusable_indices_end_run_witness :
  run_phase_diagram_calculations (example_env decimal_str []) elements5
    "TCHEA6" (Qc_of_Z 500, Qc_of_Z 1200) 60 "results"
    (Q2Qc 0.1 :: []) 15 [0; 1]%Z [2; 3; 5]%Z empty_world
  = (World ∅ {["results"]} [], Raise IndexError).
Proof.
  apply (unusable_indices_end_run (example_env decimal_str []) elements5
           "TCHEA6" (Qc_of_Z 500, Qc_of_Z 1200) 60 "results" (Q2Qc 0.1) []
           15 [0; 1]%Z [2; 3; 5]%Z empty_world (World ∅ {["results"]} [])).
  - vm_compute. reflexivity.
  - discriminate.
  - apply (bool_decide_unpack _). vm_compute. exact I.
  - intros [Hv _]. apply Forall_cons in Hv as [_ Hv].
    apply Forall_cons in Hv as [_ Hv]. apply Forall_cons in Hv as [Hv _].
    unfold valid_index in Hv. simpl in Hv. lia.
Defined.

(** X13: with fewer than three columns there is no interior grid point:
    once the output directory is there, a run with usable indices (or no
    column at all) builds its meshes and returns, leaving the world as the
    preparation of the directory left it. *)
Theorem run_without_interior_points {V} `{Pickle V} (env : environment V)
    element_list database temperature_range steps_in_temperature output_dir
    constant_C_of_others n changing consts w w0 :
  prepare_output_dir env output_dir w = (w0, Ok tt) →
  (n ≤ 2)%nat →
  n = 0%nat ∨ usable (length element_list) changing consts →
  run_phase_diagram_calculations env element_list database
    temperature_range steps_in_temperature output_dir constant_C_of_others n
    changing consts w
  = (w0, Ok tt).
Proof.
  intros Hprep Hn Hu. rewrite run_eq, Hprep.
  assert (∀ cs counter,
            for_each_io
              (calculate_mesh env element_list database temperature_range
                 steps_in_temperature output_dir n changing consts)
              counter cs w0 = (w0, Ok counter)) as Hloop.
  { induction cs as [|c cs IH]; intros counter; [done|].
    rewrite for_each_io_cons. unfold calculate_mesh at 1.
    unfold lift, mbind, io_bind.
    destruct (proj2 (mesh_concentrations_succeeds element_list n changing
                       consts c) Hu) as [a ->].
    unfold interior. replace (n - 2)%nat with 0%nat by lia. simpl.
    apply IH. }
  by rewrite Hloop.
Qed.

Lemma run_without_interior_points_witness :
  run_phase_diagram_calculations (example_env decimal_str []) elements5
    "TCHEA6" (Qc_of_Z 500, Qc_of_Z 1200) 60 "results"
    [Q2Qc 0.1; Q2Qc 0.2] 2 [0; 1]%Z [2; 3; 4]%Z empty_world
  = (World ∅ {["results"]} [], Ok tt).
Proof.
  apply (run_without_interior_points (example_env decimal_str []) elements5
           "TCHEA6" (Qc_of_Z 500, Qc_of_Z 1200) 60 "results"
           [Q2Qc 0.1; Q2Qc 0.2] 2 [0; 1]%Z [2; 3; 4]%Z empty_world
           (World ∅ {["results"]} [])).
  - vm_compute. reflexivity.
  - lia.
  - right. split; [|exists 0%Z, 1%Z, []; split; [done|]; split];
      repeat constructor; unfold valid_index; simpl; lia.
Defined.

(** ** One file per grid point *)

Lemma sweep_inj n c i j :
  (i < n)%nat → (j < n)%nat → three * c ≠ 1 →
  sweep n c i = sweep n c j → i = j.
Proof.
  intros Hi Hj Hc Heq. destruct (decide (n = 1%nat)) as [->|Hn]; [lia|].
  unfold sweep in Heq.
  assert (Qc_of_nat (n - 1) ≠ 0) as Hd by (apply Qc_of_nat_ne_0; lia).
  assert ((1 - three * c) / Qc_of_nat (n - 1) ≠ 0) as Hq.
  { intros Hq. apply Hc.
    assert (1 - three * c = 0) as Hs
      by (rewrite <-(Qcmult_div_r (1 - three * c) _ Hd), Hq; ring).
    rewrite <-(Qcplus_0_r (three * c)), <-Hs. ring. }
  assert ((Qc_of_nat i - Qc_of_nat j)
          * ((1 - three * c) / Qc_of_nat (n - 1)) = 0) as Hz.
  { set (q := (1 - three * c) / Qc_of_nat (n - 1)) in *.
    replace ((Qc_of_nat i - Qc_of_nat j) * q)
      with (Qc_of_nat i * q - Qc_of_nat j * q) by ring.
    rewrite Heq. ring. }
  apply Qcmult_integral in Hz as [Hz|Hz]; [|done].
  assert (Qc_of_nat i = Qc_of_nat j) as Hij.
  { rewrite <-(Qcplus_0_l (Qc_of_nat j)), <-Hz. ring. }
  apply Z2Qc_inj in Hij. lia.
Qed.

(** X16: over exact arithmetic every grid point has a file name of its
    own.  For a system of five elements with indices in range and pairwise
    distinct, and a float text that determines the float and holds no
    capital letter: if a grid point of the mesh of [c] and a grid point of
    the mesh of [c'] have the same file name, then [c = c'] and, unless
    [3 * c = 1] (where all columns are equal), they are the same grid
    point.  (In floating point [3 * c] is 1 for more than one [c].) *)
Theorem grid_points_have_their_own_file {V} (env : environment V)
    element_list n c c' first second others c1 c2 c3 :
  length element_list = 5%nat →
  Forall (in_range 5) [first; second; c1; c2; c3] →
  NoDup [first; second; c1; c2; c3] →
  (∀ x y, float_str env x = float_str env y → x = y) →
  (∀ x, plain (float_str env x)) →
  ∃ a a',
    mesh_concentrations element_list n (first :: second :: others)
      [c1; c2; c3] c = Ok a ∧
    mesh_concentrations element_list n (first :: second :: others)
      [c1; c2; c3] c' = Ok a' ∧
    ∀ i j x y, (i < n)%nat → (j < n)%nat →
      read_composition a i = Ok x → read_composition a' j = Ok y →
      composition_filename env x = composition_filename env y →
      c = c' ∧ (three * c ≠ 1 → i = j).
Proof.
  intros Hk Hin Hnd Hinj Hplain.
  apply Forall_cons in Hin as [H1 Hin]. apply Forall_cons in Hin as [H2 Hin].
  apply NoDup_cons in Hnd as [Hf Hnd]. apply NoDup_cons in Hnd as [Hs Hnd].
  assert (first ≠ second) as Hne by (intros ->; apply Hf; by left).
  assert (first ∉ [c1; c2; c3]) as Hfc by (intros ?; apply Hf; by right).
  destruct (mesh_column_sum element_list n c first second others [c1; c2; c3])
    as (a & Hmesh & Ha & Ea & _); rewrite ?Hk; try done.
  destruct (mesh_column_sum element_list n c' first second others
              [c1; c2; c3]) as (a' & Hmesh' & Ha' & Ea' & _);
    rewrite ?Hk; try done.
  rewrite Hk in Ha, Ha', Ea, Ea'.
  exists a, a'. split; [done|]. split; [done|].
  intros i j x y Hi Hj Hx Hy Hname.
  destruct x as [[[[Al_x Cr_x] Co_x] Fe_x] Ni_x].
  destruct y as [[[[Al_y Cr_y] Co_y] Fe_y] Ni_y].
  apply (output_filename_inj env) in Hname; [|done..].
  destruct (read_composition_column a n i Ha Hi)
    as (? & ? & ? & ? & ? & Hx' & Hcol).
  destruct (read_composition_column a' n j Ha' Hj)
    as (? & ? & ? & ? & ? & Hy' & Hcol').
  rewrite Hx in Hx'. rewrite Hy in Hy'.
  injection Hx' as <- <- <- <- <-. injection Hy' as <- <- <- <- <-.
  injection Hname as <- <- <- <- <-. rewrite <-Hcol' in Hcol.
  rewrite (column_of_entries a 5 n i
             (λ r, expected n c first second [c1; c2; c3] r i)) in Hcol
    by auto.
  rewrite (column_of_entries a' 5 n j
             (λ r, expected n c' first second [c1; c2; c3] r j)) in Hcol
    by auto.
  assert (∀ r, (r < 5)%nat →
            expected n c first second [c1; c2; c3] r i
            = expected n c' first second [c1; c2; c3] r j) as Hrows.
  { intros r Hr. apply (f_equal (λ l, l !! r)) in Hcol.
    rewrite !list_lookup_fmap, lookup_seq_lt in Hcol by done.
    by injection Hcol. }
  apply Forall_cons in Hin as [H3 _]. unfold in_range in *.
  assert (c = c') as <-.
  { specialize (Hrows (Z.to_nat c1) ltac:(lia)). unfold expected in Hrows.
    rewrite !Z2Nat.id in Hrows by lia.
    rewrite (decide_False (P := c1 = second)) in Hrows
      by (intros ->; apply Hs; by left).
    rewrite (decide_False (P := c1 = first)) in Hrows
      by (intros ->; apply Hfc; by left).
    rewrite (decide_True (P := c1 ∈ [c1; c2; c3])) in Hrows by by left.
    rewrite (decide_False (P := c1 = second)) in Hrows
      by (intros ->; apply Hs; by left).
    rewrite (decide_False (P := c1 = first)) in Hrows
      by (intros ->; apply Hfc; by left).
    by rewrite (decide_True (P := c1 ∈ [c1; c2; c3])) in Hrows by by left. }
  split; [done|]. intros Hc.
  specialize (Hrows (Z.to_nat first) ltac:(lia)). unfold expected in Hrows.
  rewrite !Z2Nat.id in Hrows by lia.
  rewrite !(decide_False (P := first = second)) in Hrows by done.
  rewrite !(decide_True (P := first = first)) in Hrows by done.
  by apply (sweep_inj n c).
Qed.

Lemma grid_points_have_their_own_file_witness :
  ∃ a a',
    mesh_concentrations elements5 15 [0; 1]%Z [2; 3; 4]%Z (Q2Qc 0.1) = Ok a ∧
    mesh_concentrations elements5 15 [0; 1]%Z [2; 3; 4]%Z (Q2Qc 0.1) = Ok a' ∧
    ∀ i j x y, (i < 15)%nat → (j < 15)%nat →
      read_composition a i = Ok x → read_composition a' j = Ok y →
      composition_filename (example_env fraction_str []) x
      = composition_filename (example_env fraction_str []) y →
      Q2Qc 0.1 = Q2Qc 0.1 ∧ (three * Q2Qc 0.1 ≠ 1 → i = j).
Proof.
  apply (grid_points_have_their_own_file (example_env fraction_str [])
           elements5 15 (Q2Qc 0.1) (Q2Qc 0.1) 0 1 [] 2 3 4).
  - reflexivity.
  - repeat constructor; unfold in_range; simpl; lia.
  - apply (bool_decide_unpack _). vm_compute. exact I.
  - exact fraction_str_inj.
  - exact fraction_str_plain.
Defined.
